(** * RoomInvitation: the room-invitation facade of the Wechaty SDK

    A shallow embedding of [RoomInvitation] and [wechatifyRoomInvitation]
    (user-modules/room-invitation.ts).  The class is a thin asynchronous
    facade over an injected puppet: every method reads the bound bot
    context, calls the puppet, and derives one value from the payload.

    Asynchronous methods are embedded as computations in a state-and-
    exception monad over a [World]: the state of everything outside the
    facade (puppet, contact store, host clock) together with a chronological
    trace of what the facade did (log lines, puppet calls, ready-waits).
    The puppet, the bot context and the host are interfaces; an in-memory
    puppet and a JSON codec instantiate them for concrete runs.

    Numbers are integers, with [NaN] where the code can produce it (the
    time of an invalid [Date] and what is computed from it); integer
    arithmetic is exact, as the code's is below 2^53; fractions and
    infinities are outside the embedding.

    The bound context is embedded twice.  In the facade a specialised class
    carries the context it was given.  In [Closure] the parameter of
    [wechatifyRoomInvitation] is a variable kept in the state, the getters
    read it there, and the methods are shown to leave it alone and to agree
    with those of the facade. *)

From Stdlib Require Import ZArith Lia Ascii String DecimalString DecimalZ DecimalPos.
From stdpp Require Import base option list strings gmap.

Local Open Scope Z_scope.
Local Open Scope string_scope.

(** ** Values *)

(** What a JavaScript [throw] (or a rejected promise) carries. *)
Inductive ErrorKind := PlainError | TypeError | SyntaxError.

Inductive Exn :=
  | ErrorObject (kind : ErrorKind) (message : string)
  | ThrownValue (rendered : string).

(** The outcome of running a method: it returned (its promise resolved), or
    it threw (its promise rejected). *)
Inductive Outcome (A : Type) :=
  | Resolved (a : A)
  | Rejected (e : Exn).
Arguments Resolved {A} a.
Arguments Rejected {A} e.

(** [RoomInvitationPayload], the fields the facade reads.  [topic],
    [memberCount] and [memberIdList] are read through [||] guards in the
    source, so they may be absent; numbers are integers. *)
Record RoomInvitationPayload := {
  payload_id           : string;
  payload_topic        : option string;
  payload_inviterId    : string;
  payload_memberCount  : option Z;
  payload_memberIdList : option (list string);
  payload_timestamp    : Z;
}.

(** A [Date] object: a time value in milliseconds since the epoch, or
    Invalid Date. *)
Inductive Date :=
  | ValidDate (time : Z)
  | InvalidDate.

(** A number that may be [NaN]. *)
Inductive JsNumber :=
  | Finite (n : Z)
  | NaN.

(** [Date.prototype.getTime()] *)
Definition getTime (d : Date) : JsNumber :=
  match d with
  | ValidDate time => Finite time
  | InvalidDate => NaN
  end.

(** [a - b] *)
Definition number_minus (a b : JsNumber) : JsNumber :=
  match a, b with
  | Finite x, Finite y => Finite (x - y)
  | _, _ => NaN
  end.

(** [Math.floor(a / d)] for a positive integer [d]: the quotient rounded
    toward minus infinity, [NaN] for [NaN]. *)
Definition Math_floor_quotient (a : JsNumber) (d : Z) : JsNumber :=
  match a with
  | Finite x => Finite (x / d)
  | NaN => NaN
  end.

(** [a >= b]: false when either side is [NaN]. *)
Definition number_ge (a b : JsNumber) : bool :=
  match a, b with
  | Finite x, Finite y => Z.leb y x
  | _, _ => false
  end.

(** [new Date(value)] for an integer [value]: Invalid Date beyond
    8.64e15 milliseconds either side of the epoch. *)
Definition new_Date (value : Z) : Date :=
  if Z.leb (Z.abs value) 8640000000000000 then ValidDate value else InvalidDate.

(** JavaScript's [a || b] where [a] may be [undefined]. *)
Definition js_or {A} (truthy : A -> bool) (a b : option A) : option A :=
  match a with
  | Some x => if truthy x then a else b
  | None => b
  end.

(** [a || d] where the right operand [d] is a literal. *)
Definition js_or_default {A} (truthy : A -> bool) (a : option A) (d : A) : A :=
  match a with
  | Some x => if truthy x then x else d
  | None => d
  end.

Definition truthy_string (s : string) : bool :=
  match s with EmptyString => false | _ => true end.
Definition truthy_number (n : Z) : bool := negb (Z.eqb n 0).
Definition truthy_array {A} (l : list A) : bool := true.

(** ** The trace *)

Inductive LogLevel := LogVerbose | LogWarn.

Inductive LogArg :=
  | ArgString (s : string)
  | ArgContact (contactId : string)
  | ArgExn (e : Exn).

Inductive Event :=
  | Log (level : LogLevel) (module format : string) (args : list LogArg)
  | PuppetRoomInvitationPayload (id : string) (newPayload : option RoomInvitationPayload)
  | PuppetRoomInvitationAccept (id : string)
  | ContactReady (contactId : string) (outcome : Outcome unit).

Definition is_puppet_call (ev : Event) : bool :=
  match ev with
  | PuppetRoomInvitationPayload _ _ | PuppetRoomInvitationAccept _ => true
  | _ => false
  end.

(** ** The monad *)

Section Facade.

(** [Env] is the state of the collaborators (puppet, contact store, host
    clock). *)
Context {Env : Type}.

Record World := {
  env   : Env;
  trace : list Event;
}.

Definition M (A : Type) : Type := World -> Outcome A * World.

Definition ret {A} (a : A) : M A := fun w => (Resolved a, w).

Definition throw {A} (e : Exn) : M A := fun w => (Rejected e, w).

Definition bind {A B} (m : M A) (k : A -> M B) : M B :=
  fun w =>
    match m w with
    | (Resolved a, w') => k a w'
    | (Rejected e, w') => (Rejected e, w')
    end.

(** [try { body } catch (e) { handler }]: what [body] did before it threw
    stays done. *)
Definition try_catch {A} (body : M A) (handler : Exn -> M A) : M A :=
  fun w =>
    match body w with
    | (Resolved a, w') => (Resolved a, w')
    | (Rejected e, w') => handler e w'
    end.

Definition emit (ev : Event) : M unit :=
  fun w => (Resolved tt, {| env := env w; trace := trace w ++ [ev] |}).

(** A call that leaves the facade: the collaborator runs on [Env]. *)
Definition external {A} (f : Env -> Outcome A * Env) : M A :=
  fun w =>
    let '(r, e') := f (env w) in
    (r, {| env := e'; trace := trace w |}).

Definition read_env {A} (f : Env -> A) : M A :=
  fun w => (Resolved (f (env w)), w).

Definition lift_outcome {A} (r : Outcome A) : M A := fun w => (r, w).

End Facade.

Arguments World : clear implicits.
Arguments M : clear implicits.

(** [Promise.all] over calls that have all been started: every one of them
    runs, in list order; the result is the list of values when all resolve
    and the first rejection otherwise.  The calls are taken to settle in
    the order they were started, so the first rejection in the list is the
    first in time. *)
Fixpoint Promise_all {Env A} (ps : list (M Env A)) : M Env (list A) :=
  match ps with
  | [] => ret []
  | p :: rest =>
      fun w =>
        let '(r, w1) := p w in
        let '(rs, w2) := Promise_all rest w1 in
        (match r, rs with
         | Resolved a, Resolved l => Resolved (a :: l)
         | Rejected e, _ => Rejected e
         | Resolved _, Rejected e => Rejected e
         end, w2)
  end.

Declare Scope facade_scope.
Delimit Scope facade_scope with facade.
Notation "x <- m ;; k" := (bind m (fun x => k))
  (at level 100, m at next level, right associativity) : facade_scope.
Notation "m ;;; k" := (bind m (fun _ => k))
  (at level 100, right associativity) : facade_scope.

(** ** The collaborators *)

(** The puppet contract the facade consumes.  The overloaded
    [roomInvitationPayload(id)] / [roomInvitationPayload(id, payload)] is
    split into the fetch and the write-through. *)
Record Puppet (Env : Type) := {
  roomInvitationPayload    : string -> Env -> Outcome RoomInvitationPayload * Env;
  roomInvitationPayloadSet : string -> RoomInvitationPayload -> Env -> Outcome unit * Env;
  roomInvitationAccept     : string -> Env -> Outcome unit * Env;
}.
Arguments roomInvitationPayload {Env} _ _ _.
Arguments roomInvitationPayloadSet {Env} _ _ _ _.
Arguments roomInvitationAccept {Env} _ _ _.

(** A class value: the [RoomInvitation] base class itself, or the class
    [wechatifyRoomInvitation] returns, whose two [wechaty] getters close
    over the context it was given. *)
Inductive RoomInvitationClass (W : Type) :=
  | RoomInvitationBase
  | WechatifiedRoomInvitation (wechaty : W).
Arguments RoomInvitationBase {W}.
Arguments WechatifiedRoomInvitation {W} wechaty.

(** What the facade reads off a [Wechaty] object: [.puppet] (possibly
    unset), [.Contact] (through [load] and the handles' [ready()]) and
    [.RoomInvitation]. *)
Class WechatyContext (Env W : Type) := {
  wechaty_puppet         : W -> option (Puppet Env);
  wechaty_Contact_ready  : W -> string -> Env -> Outcome unit * Env;
  wechaty_RoomInvitation : W -> RoomInvitationClass W;
}.

(** The host: [Date.now()], [JSON.stringify] and [JSON.parse] (which throws
    on malformed text), typed at payloads as the source casts them; and
    [timestampToDate] (helper-functions/pure/timestamp-to-date.ts), which is
    not among the sources at hand and stays a parameter. *)
Class Host (Env : Type) := {
  Date_now        : Env -> Z;
  JSON_stringify  : RoomInvitationPayload -> string;
  JSON_parse      : string -> Outcome RoomInvitationPayload;
  timestampToDate : Z -> Date;
}.

(** ** The facade *)

Section RoomInvitation.

Context {Env W : Type} `{!WechatyContext Env W} `{!Host Env}.

Local Open Scope facade_scope.

(** An entity handle: the class it was constructed from and its [id]. *)
Record RoomInvitation := {
  class_of : RoomInvitationClass W;
  id       : string;
}.

(** Modelled from the spec: the contact handle of the bot-context contract,
    [Contact.load(id) -> ContactHandle] with a [.ready()] operation; the
    Contact class itself (user-modules/contact.ts) is not part of the
    sources at hand. *)
Record Contact := {
  contact_wechaty : W;
  contact_id      : string;
}.

Definition Contact_load (w : W) (contactId : string) : Contact :=
  {| contact_wechaty := w; contact_id := contactId |}.

Definition Contact_ready (c : Contact) : M Env unit :=
  fun w =>
    let '(r, e') := wechaty_Contact_ready (contact_wechaty c) (contact_id c) (env w) in
    (r, {| env := e'; trace := trace w ++ [ContactReady (contact_id c) r] |}).

Definition log (level : LogLevel) (module format : string) (args : list LogArg)
  : M Env unit :=
  emit (Log level module format args).

Definition direct_use_message : string :=
  "This class can not be used directly. See: https://github.com/wechaty/wechaty/issues/2027".

(** [static get wechaty ()] *)
Definition static_wechaty (C : RoomInvitationClass W) : M Env W :=
  match C with
  | RoomInvitationBase => throw (ErrorObject PlainError direct_use_message)
  | WechatifiedRoomInvitation wechaty => ret wechaty
  end.

(** [get wechaty ()] *)
Definition get_wechaty (this : RoomInvitation) : M Env W :=
  match class_of this with
  | RoomInvitationBase => throw (ErrorObject PlainError direct_use_message)
  | WechatifiedRoomInvitation wechaty => ret wechaty
  end.

(** Reading [.puppet] for a method call on it: calling a method of
    [undefined] is a [TypeError]. *)
Definition puppet_of (wechaty : W) : M Env (Puppet Env) :=
  match wechaty_puppet wechaty with
  | Some puppet => ret puppet
  | None => throw (ErrorObject TypeError "Cannot read properties of undefined")
  end.

(** [this.wechaty.puppet.roomInvitationPayload(id)] *)
Definition puppet_roomInvitationPayload (wechaty : W) (i : string)
  : M Env RoomInvitationPayload :=
  puppet <- puppet_of wechaty ;;
  emit (PuppetRoomInvitationPayload i None) ;;;
  external (roomInvitationPayload puppet i).

(** [this.wechaty.puppet.roomInvitationPayload(id, payload)] *)
Definition puppet_roomInvitationPayloadSet (wechaty : W) (i : string)
    (payload : RoomInvitationPayload) : M Env unit :=
  puppet <- puppet_of wechaty ;;
  emit (PuppetRoomInvitationPayload i (Some payload)) ;;;
  external (roomInvitationPayloadSet puppet i payload).

(** [this.wechaty.puppet.roomInvitationAccept(id)] *)
Definition puppet_roomInvitationAccept (wechaty : W) (i : string) : M Env unit :=
  puppet <- puppet_of wechaty ;;
  emit (PuppetRoomInvitationAccept i) ;;;
  external (roomInvitationAccept puppet i).

(** [constructor (public readonly id: string)], run for [new C(id)];
    [instanceToClass(this, RoomInvitation)] is [C]. *)
Definition constructor (C : RoomInvitationClass W) (i : string) : M Env RoomInvitation :=
  let this := {| class_of := C; id := i |} in
  log LogVerbose "RoomInvitation" "constructor(id=%s)" [ArgString i] ;;;
  let MyClass := C in
  match MyClass with
  | RoomInvitationBase =>
      throw (ErrorObject PlainError
        "RoomInvitation class can not be instantiated directly! See: https://github.com/wechaty/wechaty/issues/1217")
  | WechatifiedRoomInvitation _ =>
      wechaty <- get_wechaty this ;;
      match wechaty_puppet wechaty with
      | None =>
          throw (ErrorObject PlainError
            "RoomInvitation class can not be instantiated without a puppet!")
      | Some _ => ret this
      end
  end.

(** [static load (id)] *)
Definition load (C : RoomInvitationClass W) (i : string) : M Env RoomInvitation :=
  newRoomInvitation <- constructor C i ;;
  ret newRoomInvitation.

(** [toString ()] *)
Definition toString (this : RoomInvitation) : string :=
  "RoomInvitation#" ++ js_or_default truthy_string (Some (id this)) "loading".

(** A field as [Array.prototype.join] renders it: [undefined] is empty. *)
Definition join_field (field : option string) : string :=
  match field with Some s => s | None => "" end.

(** [async toStringAsync ()] *)
Definition toStringAsync (this : RoomInvitation) : M Env string :=
  wechaty <- get_wechaty this ;;
  payload <- puppet_roomInvitationPayload wechaty (id this) ;;
  ret ("RoomInvitation#" ++ id this ++ "<" ++ join_field (payload_topic payload)
         ++ "," ++ payload_inviterId payload ++ ">").

(** [async inviter ()] *)
Definition inviter (this : RoomInvitation) : M Env Contact :=
  log LogVerbose "RoomInvitation" "inviter()" [] ;;;
  wechaty <- get_wechaty this ;;
  payload <- puppet_roomInvitationPayload wechaty (id this) ;;
  wechaty' <- get_wechaty this ;;
  let inviter := Contact_load wechaty' (payload_inviterId payload) in
  ret inviter.

(** [async topic ()] *)
Definition topic (this : RoomInvitation) : M Env string :=
  wechaty <- get_wechaty this ;;
  payload <- puppet_roomInvitationPayload wechaty (id this) ;;
  ret (js_or_default truthy_string
         (js_or truthy_string (payload_topic payload) (payload_topic payload)) "").

(** [async memberCount ()] *)
Definition memberCount (this : RoomInvitation) : M Env Z :=
  log LogVerbose "RoomInvitation" "memberCount()" [] ;;;
  wechaty <- get_wechaty this ;;
  payload <- puppet_roomInvitationPayload wechaty (id this) ;;
  ret (js_or_default truthy_number
         (js_or truthy_number (payload_memberCount payload) (payload_memberCount payload)) 0).

(** [Array.prototype.map] with a callback that may throw. *)
Fixpoint array_map {A B} (f : A -> M Env B) (l : list A) : M Env (list B) :=
  match l with
  | [] => ret []
  | a :: rest =>
      b <- f a ;;
      bs <- array_map f rest ;;
      ret (b :: bs)
  end.

(** [async memberList ()] *)
Definition memberList (this : RoomInvitation) : M Env (list Contact) :=
  log LogVerbose "RoomInvitation" "roomMemberList()" [] ;;;
  wechaty <- get_wechaty this ;;
  payload <- puppet_roomInvitationPayload wechaty (id this) ;;
  let contactIdList :=
    js_or_default truthy_array
      (js_or truthy_array (payload_memberIdList payload) (payload_memberIdList payload)) [] in
  contactList <- array_map
    (fun i => wechaty' <- get_wechaty this ;; ret (Contact_load wechaty' i))
    contactIdList ;;
  Promise_all (map (fun c => Contact_ready c) contactList) ;;;
  ret contactList.

(** [async date ()] *)
Definition date (this : RoomInvitation) : M Env Date :=
  log LogVerbose "RoomInvitation" "date()" [] ;;;
  wechaty <- get_wechaty this ;;
  payload <- puppet_roomInvitationPayload wechaty (id this) ;;
  ret (timestampToDate (payload_timestamp payload)).

(** [async age ()] *)
Definition age (this : RoomInvitation) : M Env JsNumber :=
  recvDate <- date this ;;
  now <- read_env Date_now ;;
  let ageMilliseconds := number_minus (Finite now) (getTime recvDate) in
  let ageSeconds := Math_floor_quotient ageMilliseconds 1000 in
  ret ageSeconds.

(** [(e && (e as Error).message) || e] *)
Definition reason_of (e : Exn) : LogArg :=
  match e with
  | ErrorObject _ message =>
      if truthy_string message then ArgString message else ArgExn e
  | ThrownValue _ => ArgExn e
  end.

(** [async accept ()] *)
Definition accept (this : RoomInvitation) : M Env unit :=
  log LogVerbose "RoomInvitation" "accept()" [] ;;;
  wechaty <- get_wechaty this ;;
  puppet_roomInvitationAccept wechaty (id this) ;;;
  inviter <- inviter this ;;
  topic <- topic this ;;
  try_catch
    (Contact_ready inviter ;;;
     log LogVerbose "RoomInvitation" "accept() with room(%s) & inviter(%s) ready()"
       [ArgString topic; ArgContact (contact_id inviter)] ;;;
     ret tt)
    (fun e =>
       log LogWarn "RoomInvitation" "accept() inviter(%s) is not ready because of %s"
         [ArgContact (contact_id inviter); reason_of e]).

(** [static async fromJSON (payload: string | RoomInvitationPayload)] *)
Definition fromJSON (C : RoomInvitationClass W) (payload : string + RoomInvitationPayload)
  : M Env RoomInvitation :=
  log LogVerbose "RoomInvitation" "fromJSON(%s)"
    [ArgString match payload with
               | inl text => text
               | inr object => JSON_stringify object
               end] ;;;
  payload <- match payload with
             | inl text => lift_outcome (JSON_parse text)
             | inr object => ret object
             end ;;
  wechaty <- static_wechaty C ;;
  puppet_roomInvitationPayloadSet wechaty (payload_id payload) payload ;;;
  wechaty' <- static_wechaty C ;;
  load (wechaty_RoomInvitation wechaty') (payload_id payload).

(** [async toJSON ()] *)
Definition toJSON (this : RoomInvitation) : M Env string :=
  log LogVerbose "RoomInvitation" "toJSON()" [] ;;;
  wechaty <- get_wechaty this ;;
  payload <- puppet_roomInvitationPayload wechaty (id this) ;;
  ret (JSON_stringify payload).

(** [wechatifyRoomInvitation (wechaty)] *)
Definition wechatifyRoomInvitation (wechaty : W) : RoomInvitationClass W :=
  WechatifiedRoomInvitation wechaty.

End RoomInvitation.

(** ** A host codec: JSON text for payloads

    [JSON.stringify] and [JSON.parse] restricted to what a payload holds:
    strings, integers, arrays and objects (with [null], [true], [false] read
    but never written).  Text is a string of bytes. *)

Module JSON.

#[warnings="-register-all"]
Inductive json :=
  | JNull
  | JBool (b : bool)
  | JNumber (n : Z)
  | JString (s : string)
  | JArray (elements : list json)
  | JObject (members : list (string * json)).

Definition quote : ascii := "034"%char.
Definition backslash : ascii := "\"%char.

Definition hex_digit (n : N) : ascii :=
  if (n <? 10)%N then ascii_of_N (48 + n) else ascii_of_N (87 + n).

(** QuoteJSONString, one character. *)
Definition escape_char (c : ascii) : string :=
  if Ascii.eqb c quote then String backslash (String quote EmptyString)
  else if Ascii.eqb c backslash then String backslash (String backslash EmptyString)
  else
    let n := N_of_ascii c in
    if (n <? 32)%N then
      if (n =? 8)%N then "\b"
      else if (n =? 9)%N then "\t"
      else if (n =? 10)%N then "\n"
      else if (n =? 12)%N then "\f"
      else if (n =? 13)%N then "\r"
      else "\u00" ++ String (hex_digit (n / 16)) (String (hex_digit (n mod 16)) EmptyString)
    else String c EmptyString.

Fixpoint escape (s : string) : string :=
  match s with
  | EmptyString => EmptyString
  | String c rest => escape_char c ++ escape rest
  end.

Definition print_string (s : string) : string :=
  String quote (escape s ++ String quote EmptyString).

Definition print_number (n : Z) : string :=
  NilZero.string_of_int (Z.to_int n).

Fixpoint join_with_commas (parts : list string) : string :=
  match parts with
  | [] => EmptyString
  | [p] => p
  | p :: rest => p ++ "," ++ join_with_commas rest
  end.

(** [JSON.stringify] without indentation. *)
Fixpoint print (v : json) : string :=
  match v with
  | JNull => "null"
  | JBool true => "true"
  | JBool false => "false"
  | JNumber n => print_number n
  | JString s => print_string s
  | JArray elements => "[" ++ join_with_commas (map print elements) ++ "]"
  | JObject members =>
      "{" ++ join_with_commas
               (map (fun kv => print_string (fst kv) ++ ":" ++ print (snd kv)) members)
          ++ "}"
  end.

(** *** Reading *)

Definition is_whitespace (c : ascii) : bool :=
  Ascii.eqb c " " || Ascii.eqb c "009" || Ascii.eqb c "010" || Ascii.eqb c "013".

Fixpoint skip_whitespace (s : string) : string :=
  match s with
  | String c rest => if is_whitespace c then skip_whitespace rest else s
  | EmptyString => s
  end.

Definition is_digit (c : ascii) : bool :=
  let n := N_of_ascii c in ((48 <=? n) && (n <=? 57))%N.

Fixpoint span_digits (s : string) : string * string :=
  match s with
  | String c rest =>
      if is_digit c then
        let '(digits, r) := span_digits rest in (String c digits, r)
      else (EmptyString, s)
  | EmptyString => (EmptyString, EmptyString)
  end.

Definition starts_fraction (s : string) : bool :=
  match s with
  | String c _ => Ascii.eqb c "." || Ascii.eqb c "e" || Ascii.eqb c "E"
  | EmptyString => false
  end.

(** An integer literal.  Numbers are integers here: a fraction or an
    exponent is refused; leading zeros, which [JSON.parse] refuses, are
    read. *)
Definition parse_digits (s : string) : option (Z * string) :=
  let '(digits, r) := span_digits s in
  match digits with
  | EmptyString => None
  | _ =>
      if starts_fraction r then None
      else u ← NilZero.uint_of_string digits; Some (Z.of_uint u, r)
  end.

Definition parse_number (s : string) : option (Z * string) :=
  match s with
  | String c rest =>
      if Ascii.eqb c "-" then '(n, r) ← parse_digits rest; Some (- n, r)
      else parse_digits s
  | EmptyString => None
  end.

Definition hex_value (c : ascii) : option N :=
  let n := N_of_ascii c in
  if ((48 <=? n) && (n <=? 57))%N then Some (n - 48)%N
  else if ((97 <=? n) && (n <=? 102))%N then Some (n - 87)%N
  else if ((65 <=? n) && (n <=? 70))%N then Some (n - 55)%N
  else None.

(** The bytes of a code unit below 0x10000. *)
Definition utf8_encode (n : N) : string :=
  if (n <? 128)%N then String (ascii_of_N n) EmptyString
  else if (n <? 2048)%N then
    String (ascii_of_N (192 + n / 64)) (String (ascii_of_N (128 + n mod 64)) EmptyString)
  else
    String (ascii_of_N (224 + n / 4096))
      (String (ascii_of_N (128 + (n / 64) mod 64))
         (String (ascii_of_N (128 + n mod 64)) EmptyString)).

Definition unescape (e : ascii) : option ascii :=
  if Ascii.eqb e quote then Some quote
  else if Ascii.eqb e backslash then Some backslash
  else if Ascii.eqb e "/" then Some "/"%char
  else if Ascii.eqb e "b" then Some "008"%char
  else if Ascii.eqb e "t" then Some "009"%char
  else if Ascii.eqb e "n" then Some "010"%char
  else if Ascii.eqb e "f" then Some "012"%char
  else if Ascii.eqb e "r" then Some "013"%char
  else None.

(** The characters of a string literal after its opening quote, up to and
    including the closing quote. *)
Fixpoint parse_chars (s : string) : option (string * string) :=
  match s with
  | EmptyString => None
  | String c rest =>
      if Ascii.eqb c quote then Some (EmptyString, rest)
      else if Ascii.eqb c backslash then
        match rest with
        | EmptyString => None
        | String e rest' =>
            if Ascii.eqb e "u" then
              match rest' with
              | String h1 (String h2 (String h3 (String h4 rest''))) =>
                  a ← hex_value h1; b ← hex_value h2; c ← hex_value h3; d ← hex_value h4;
                  '(body, r) ← parse_chars rest'';
                  Some (utf8_encode (((a * 16 + b) * 16 + c) * 16 + d) ++ body, r)
              | _ => None
              end
            else
              c' ← unescape e;
              '(body, r) ← parse_chars rest';
              Some (String c' body, r)
        end
      else if (N_of_ascii c <? 32)%N then None
      else '(body, r) ← parse_chars rest; Some (String c body, r)
  end.

Fixpoint expect (word s : string) : option string :=
  match word, s with
  | EmptyString, _ => Some s
  | String a word', String b s' => if Ascii.eqb a b then expect word' s' else None
  | String _ _, EmptyString => None
  end.

Fixpoint parse_value (fuel : nat) (s : string) : option (json * string) :=
  match fuel with
  | O => None
  | S fuel =>
      match skip_whitespace s with
      | EmptyString => None
      | String c rest =>
          if Ascii.eqb c "n" then r ← expect "ull" rest; Some (JNull, r)
          else if Ascii.eqb c "t" then r ← expect "rue" rest; Some (JBool true, r)
          else if Ascii.eqb c "f" then r ← expect "alse" rest; Some (JBool false, r)
          else if Ascii.eqb c quote then
            '(str, r) ← parse_chars rest; Some (JString str, r)
          else if Ascii.eqb c "[" then
            match skip_whitespace rest with
            | String c' r =>
                if Ascii.eqb c' "]" then Some (JArray [], r)
                else '(l, r') ← parse_elements fuel rest; Some (JArray l, r')
            | EmptyString => None
            end
          else if Ascii.eqb c "{" then
            match skip_whitespace rest with
            | String c' r =>
                if Ascii.eqb c' "}" then Some (JObject [], r)
                else '(l, r') ← parse_members fuel rest; Some (JObject l, r')
            | EmptyString => None
            end
          else '(n, r) ← parse_number (String c rest); Some (JNumber n, r)
      end
  end
with parse_elements (fuel : nat) (s : string) : option (list json * string) :=
  match fuel with
  | O => None
  | S fuel =>
      '(v, r) ← parse_value fuel s;
      match skip_whitespace r with
      | String c r' =>
          if Ascii.eqb c "," then
            '(vs, r'') ← parse_elements fuel r'; Some (v :: vs, r'')
          else if Ascii.eqb c "]" then Some ([v], r')
          else None
      | EmptyString => None
      end
  end
with parse_members (fuel : nat) (s : string) : option (list (string * json) * string) :=
  match fuel with
  | O => None
  | S fuel =>
      match skip_whitespace s with
      | String q rest =>
          if Ascii.eqb q quote then
            '(key, r) ← parse_chars rest;
            match skip_whitespace r with
            | String colon r1 =>
                if Ascii.eqb colon ":" then
                  '(v, r2) ← parse_value fuel r1;
                  match skip_whitespace r2 with
                  | String c r3 =>
                      if Ascii.eqb c "," then
                        '(kvs, r4) ← parse_members fuel r3; Some ((key, v) :: kvs, r4)
                      else if Ascii.eqb c "}" then Some ([(key, v)], r3)
                      else None
                  | EmptyString => None
                  end
                else None
            | EmptyString => None
            end
          else None
      | EmptyString => None
      end
  end.

(** [JSON.parse]: one value, then nothing but whitespace. *)
Definition parse (text : string) : option json :=
  '(v, r) ← parse_value (2 * String.length text + 2) text;
  match skip_whitespace r with
  | EmptyString => Some v
  | String _ _ => None
  end.

End JSON.

(** Payloads as JSON objects.  [JSON.stringify] leaves out a property whose
    value is [undefined]. *)
Definition member_if_present {A} (key : string) (to_json : A -> JSON.json)
    (field : option A) : list (string * JSON.json) :=
  match field with
  | Some a => [(key, to_json a)]
  | None => []
  end.

Definition payload_to_json (p : RoomInvitationPayload) : JSON.json :=
  JSON.JObject
    ([("id", JSON.JString (payload_id p))]
     ++ member_if_present "topic" JSON.JString (payload_topic p)
     ++ [("inviterId", JSON.JString (payload_inviterId p))]
     ++ member_if_present "memberCount" JSON.JNumber (payload_memberCount p)
     ++ member_if_present "memberIdList"
          (fun l => JSON.JArray (map JSON.JString l)) (payload_memberIdList p)
     ++ [("timestamp", JSON.JNumber (payload_timestamp p))]).

(** Property lookup on a parsed object: of two members with one key the
    later one counts. *)
Fixpoint lookup_member (key : string) (members : list (string * JSON.json))
  : option JSON.json :=
  match members with
  | [] => None
  | (k, v) :: rest =>
      match lookup_member key rest with
      | Some v' => Some v'
      | None => if String.eqb key k then Some v else None
      end
  end.

Definition as_string (v : JSON.json) : option string :=
  match v with JSON.JString s => Some s | _ => None end.

Definition as_number (v : JSON.json) : option Z :=
  match v with JSON.JNumber n => Some n | _ => None end.

Fixpoint as_strings (l : list JSON.json) : option (list string) :=
  match l with
  | [] => Some []
  | v :: rest => s ← as_string v; ss ← as_strings rest; Some (s :: ss)
  end.

Definition as_string_array (v : JSON.json) : option (list string) :=
  match v with JSON.JArray l => as_strings l | _ => None end.

Definition optional_member {A} (read : JSON.json -> option A) (member : option JSON.json)
  : option (option A) :=
  match member with
  | None => Some None
  | Some v => a ← read v; Some (Some a)
  end.

(** The cast [as RoomInvitationPayload] on a parsed value that has the
    payload's shape. *)
Definition payload_of_json (v : JSON.json) : option RoomInvitationPayload :=
  match v with
  | JSON.JObject members =>
      i ← lookup_member "id" members ≫= as_string;
      t ← optional_member as_string (lookup_member "topic" members);
      inv ← lookup_member "inviterId" members ≫= as_string;
      n ← optional_member as_number (lookup_member "memberCount" members);
      l ← optional_member as_string_array (lookup_member "memberIdList" members);
      ts ← lookup_member "timestamp" members ≫= as_number;
      Some {| payload_id := i; payload_topic := t; payload_inviterId := inv;
              payload_memberCount := n; payload_memberIdList := l;
              payload_timestamp := ts |}
  | _ => None
  end.

Definition stringify_payload (p : RoomInvitationPayload) : string :=
  JSON.print (payload_to_json p).

(** Malformed text is a [SyntaxError].  Well-formed text that is not a
    payload is outside the declared type of [fromJSON]'s argument; this host
    refuses it as well. *)
Definition parse_payload (text : string) : Outcome RoomInvitationPayload :=
  match JSON.parse text with
  | None => Rejected (ErrorObject SyntaxError "Unexpected token in JSON")
  | Some v =>
      match payload_of_json v with
      | Some p => Resolved p
      | None => Rejected (ErrorObject TypeError "not a RoomInvitationPayload")
      end
  end.

(** ** An in-memory world

    A puppet that keeps payloads in a store keyed by id, contacts whose
    [ready()] may reject, and a clock; used to run the facade on concrete
    inputs. *)
Record MemoryEnv := {
  store        : gmap string RoomInvitationPayload;
  accept_error : option Exn;
  accepted     : list string;
  unready      : gmap string Exn;
  clock        : Z;
}.

Definition memory_fetch (i : string) (e : MemoryEnv)
  : Outcome RoomInvitationPayload * MemoryEnv :=
  (match store e !! i with
   | Some p => Resolved p
   | None => Rejected (ErrorObject PlainError "no payload for this id")
   end, e).

Definition memory_write (i : string) (p : RoomInvitationPayload) (e : MemoryEnv)
  : Outcome unit * MemoryEnv :=
  (Resolved tt,
   {| store := <[i := p]> (store e); accept_error := accept_error e;
      accepted := accepted e; unready := unready e; clock := clock e |}).

Definition memory_accept (i : string) (e : MemoryEnv) : Outcome unit * MemoryEnv :=
  match accept_error e with
  | Some x => (Rejected x, e)
  | None =>
      (Resolved tt,
       {| store := store e; accept_error := accept_error e;
          accepted := accepted e ++ [i]; unready := unready e; clock := clock e |})
  end.

Definition memory_puppet : Puppet MemoryEnv :=
  {| roomInvitationPayload := memory_fetch;
     roomInvitationPayloadSet := memory_write;
     roomInvitationAccept := memory_accept |}.

Definition memory_ready (contactId : string) (e : MemoryEnv) : Outcome unit * MemoryEnv :=
  (match unready e !! contactId with
   | Some x => Rejected x
   | None => Resolved tt
   end, e).

(** Two bot contexts: one with its puppet set, one without. *)
Inductive Bot := BotWithPuppet | BotWithoutPuppet.

#[export] Instance memory_context : WechatyContext MemoryEnv Bot := {|
  wechaty_puppet b :=
    match b with BotWithPuppet => Some memory_puppet | BotWithoutPuppet => None end;
  wechaty_Contact_ready _ := memory_ready;
  wechaty_RoomInvitation b := WechatifiedRoomInvitation b;
|}.

(** One date conversion: timestamps below 1e11 count seconds, the others
    milliseconds. *)
Definition seconds_or_milliseconds (timestamp : Z) : Date :=
  new_Date (if Z.ltb timestamp 100000000000 then timestamp * 1000 else timestamp).

#[export] Instance memory_host : Host MemoryEnv := {|
  Date_now := clock;
  JSON_stringify := stringify_payload;
  JSON_parse := parse_payload;
  timestampToDate := seconds_or_milliseconds;
|}.

(** The payload of the scenario of the specification. *)
Definition scenario_payload : RoomInvitationPayload :=
  {| payload_id := "i1"; payload_topic := Some "T"; payload_inviterId := "c1";
     payload_memberCount := Some 3; payload_memberIdList := Some ["c1"; "c2"; "c3"];
     payload_timestamp := 1234567890 |}.

Definition scenario_env : MemoryEnv :=
  {| store := {["i1" := scenario_payload]}; accept_error := None; accepted := [];
     unready := ∅; clock := 1234567904500 |}.

Definition scenario_world : World MemoryEnv :=
  {| env := scenario_env; trace := [] |}.

Arguments RoomInvitation W : clear implicits.
Arguments Contact W : clear implicits.

(** Sequences of facade operations on one specialised class, for properties
    that hold across calls. *)
Inductive Operation (W : Type) :=
  | OpLoad (i : string)
  | OpFromJSON (payload : string + RoomInvitationPayload)
  | OpAccept (this : RoomInvitation W)
  | OpInviter (this : RoomInvitation W)
  | OpTopic (this : RoomInvitation W)
  | OpMemberCount (this : RoomInvitation W)
  | OpMemberList (this : RoomInvitation W)
  | OpDate (this : RoomInvitation W)
  | OpAge (this : RoomInvitation W)
  | OpToJSON (this : RoomInvitation W)
  | OpToStringAsync (this : RoomInvitation W).
Arguments OpLoad {W} i.
Arguments OpFromJSON {W} payload.
Arguments OpAccept {W} this.
Arguments OpInviter {W} this.
Arguments OpTopic {W} this.
Arguments OpMemberCount {W} this.
Arguments OpMemberList {W} this.
Arguments OpDate {W} this.
Arguments OpAge {W} this.
Arguments OpToJSON {W} this.
Arguments OpToStringAsync {W} this.

Definition perform {Env W} `{!WechatyContext Env W} `{!Host Env}
    (C : RoomInvitationClass W) (op : Operation W) (s : World Env) : World Env :=
  match op with
  | OpLoad i => snd (load C i s)
  | OpFromJSON payload => snd (fromJSON C payload s)
  | OpAccept this => snd (accept this s)
  | OpInviter this => snd (inviter this s)
  | OpTopic this => snd (topic this s)
  | OpMemberCount this => snd (memberCount this s)
  | OpMemberList this => snd (memberList this s)
  | OpDate this => snd (date this s)
  | OpAge this => snd (age this s)
  | OpToJSON this => snd (toJSON this s)
  | OpToStringAsync this => snd (toStringAsync this s)
  end.

Definition perform_all {Env W} `{!WechatyContext Env W} `{!Host Env}
    (C : RoomInvitationClass W) (ops : list (Operation W)) (s : World Env) : World Env :=
  fold_left (fun s op => perform C op s) ops s.

(** The puppet calls of a trace, in order. *)
Definition puppet_calls (t : list Event) : list Event :=
  List.filter is_puppet_call t.

(** ** The class factory and its closure

    [wechatifyRoomInvitation (wechaty)] declares a class in its body; the
    two getters of that class return the parameter [wechaty], a variable of
    the environment record of that call.  Here the environment records are
    part of the state: a class is a reference to the record of the call that
    made it, the getters read the variable from the state at the moment they
    are called, and every [this.wechaty] of the facade is such a read. *)

Module Closure.

Section Factory.

Context {Env W : Type} `{!WechatyContext Env W} `{!Host Env}.

Local Open Scope facade_scope.

(** The state: that of the collaborators, and the variable [wechaty] of
    every call of [wechatifyRoomInvitation] made so far, in order. *)
Record Realm := {
  host_env : Env;
  scopes   : list W;
}.

(** A class value: the base class, or the class declared by the call whose
    environment record is [scope]. *)
Inductive ClassRef :=
  | RoomInvitationRef
  | WechatifiedRoomInvitationRef (scope : nat).

(** [wechaty.RoomInvitation] *)
Variable RoomInvitation_of : W -> ClassRef.

(** Code outside the body of [wechatifyRoomInvitation] (the puppet, the
    contacts) has no name for its variable: it runs on the collaborators'
    state. *)
Definition outside {A} (f : Env -> Outcome A * Env) (r : Realm) : Outcome A * Realm :=
  let '(o, e') := f (host_env r) in
  (o, {| host_env := e'; scopes := scopes r |}).

Definition realm_puppet (puppet : Puppet Env) : Puppet Realm :=
  {| roomInvitationPayload i := outside (roomInvitationPayload puppet i);
     roomInvitationPayloadSet i payload := outside (roomInvitationPayloadSet puppet i payload);
     roomInvitationAccept i := outside (roomInvitationAccept puppet i) |}.

(** The bot context on the larger state.  [wechaty.RoomInvitation] is
    [RoomInvitation_of] in this layer, where a class is a reference. *)
#[local] Instance realm_context : WechatyContext Realm W :=
  {| wechaty_puppet wechaty := realm_puppet <$> wechaty_puppet wechaty;
     wechaty_Contact_ready wechaty contactId := outside (wechaty_Contact_ready wechaty contactId);
     wechaty_RoomInvitation := wechaty_RoomInvitation |}.

#[local] Instance realm_host : Host Realm :=
  {| Date_now r := Date_now (host_env r);
     JSON_stringify := JSON_stringify;
     JSON_parse := JSON_parse;
     timestampToDate := timestampToDate |}.

(** An entity handle. *)
Record RoomInvitation := {
  class_of : ClassRef;
  id       : string;
}.

(** [return wechaty] in a getter of the class declared by call [scope]: the
    variable is read from the environment record.  A reference that no call
    has returned denotes no class. *)
Definition read_variable (scope : nat) : M Realm W :=
  fun s =>
    match scopes (env s) !! scope with
    | Some wechaty => (Resolved wechaty, s)
    | None => (Rejected (ErrorObject TypeError "Cannot read properties of undefined"), s)
    end.

(** [static get wechaty ()]: the base class throws, the declared class
    overrides it with [return wechaty]. *)
Definition static_wechaty (C : ClassRef) : M Realm W :=
  match C with
  | RoomInvitationRef => throw (ErrorObject PlainError direct_use_message)
  | WechatifiedRoomInvitationRef scope => read_variable scope
  end.

(** [get wechaty ()] *)
Definition get_wechaty (this : RoomInvitation) : M Realm W :=
  match class_of this with
  | RoomInvitationRef => throw (ErrorObject PlainError direct_use_message)
  | WechatifiedRoomInvitationRef scope => read_variable scope
  end.

(** [constructor (public readonly id: string)] *)
Definition constructor (C : ClassRef) (i : string) : M Realm RoomInvitation :=
  let this := {| class_of := C; id := i |} in
  log LogVerbose "RoomInvitation" "constructor(id=%s)" [ArgString i] ;;;
  let MyClass := C in
  match MyClass with
  | RoomInvitationRef =>
      throw (ErrorObject PlainError
        "RoomInvitation class can not be instantiated directly! See: https://github.com/wechaty/wechaty/issues/1217")
  | WechatifiedRoomInvitationRef _ =>
      wechaty <- get_wechaty this ;;
      match wechaty_puppet wechaty with
      | None =>
          throw (ErrorObject PlainError
            "RoomInvitation class can not be instantiated without a puppet!")
      | Some _ => ret this
      end
  end.

(** [static load (id)] *)
Definition load (C : ClassRef) (i : string) : M Realm RoomInvitation :=
  newRoomInvitation <- constructor C i ;;
  ret newRoomInvitation.

(** [async toStringAsync ()] *)
Definition toStringAsync (this : RoomInvitation) : M Realm string :=
  wechaty <- get_wechaty this ;;
  payload <- puppet_roomInvitationPayload wechaty (id this) ;;
  ret ("RoomInvitation#" ++ id this ++ "<" ++ join_field (payload_topic payload)
         ++ "," ++ payload_inviterId payload ++ ">")%string.

(** [async inviter ()] *)
Definition inviter (this : RoomInvitation) : M Realm (Contact W) :=
  log LogVerbose "RoomInvitation" "inviter()" [] ;;;
  wechaty <- get_wechaty this ;;
  payload <- puppet_roomInvitationPayload wechaty (id this) ;;
  wechaty' <- get_wechaty this ;;
  let inviter := Contact_load wechaty' (payload_inviterId payload) in
  ret inviter.

(** [async topic ()] *)
Definition topic (this : RoomInvitation) : M Realm string :=
  wechaty <- get_wechaty this ;;
  payload <- puppet_roomInvitationPayload wechaty (id this) ;;
  ret (js_or_default truthy_string
         (js_or truthy_string (payload_topic payload) (payload_topic payload)) "").

(** [async memberCount ()] *)
Definition memberCount (this : RoomInvitation) : M Realm Z :=
  log LogVerbose "RoomInvitation" "memberCount()" [] ;;;
  wechaty <- get_wechaty this ;;
  payload <- puppet_roomInvitationPayload wechaty (id this) ;;
  ret (js_or_default truthy_number
         (js_or truthy_number (payload_memberCount payload) (payload_memberCount payload)) 0).

(** [async memberList ()] *)
Definition memberList (this : RoomInvitation) : M Realm (list (Contact W)) :=
  log LogVerbose "RoomInvitation" "roomMemberList()" [] ;;;
  wechaty <- get_wechaty this ;;
  payload <- puppet_roomInvitationPayload wechaty (id this) ;;
  let contactIdList :=
    js_or_default truthy_array
      (js_or truthy_array (payload_memberIdList payload) (payload_memberIdList payload)) [] in
  contactList <- array_map
    (fun i => wechaty' <- get_wechaty this ;; ret (Contact_load wechaty' i))
    contactIdList ;;
  Promise_all (map (fun c => Contact_ready c) contactList) ;;;
  ret contactList.

(** [async date ()] *)
Definition date (this : RoomInvitation) : M Realm Date :=
  log LogVerbose "RoomInvitation" "date()" [] ;;;
  wechaty <- get_wechaty this ;;
  payload <- puppet_roomInvitationPayload wechaty (id this) ;;
  ret (timestampToDate (payload_timestamp payload)).

(** [async age ()] *)
Definition age (this : RoomInvitation) : M Realm JsNumber :=
  recvDate <- date this ;;
  now <- read_env Date_now ;;
  let ageMilliseconds := number_minus (Finite now) (getTime recvDate) in
  let ageSeconds := Math_floor_quotient ageMilliseconds 1000 in
  ret ageSeconds.

(** [async accept ()] *)
Definition accept (this : RoomInvitation) : M Realm unit :=
  log LogVerbose "RoomInvitation" "accept()" [] ;;;
  wechaty <- get_wechaty this ;;
  puppet_roomInvitationAccept wechaty (id this) ;;;
  inviter <- inviter this ;;
  topic <- topic this ;;
  try_catch
    (Contact_ready inviter ;;;
     log LogVerbose "RoomInvitation" "accept() with room(%s) & inviter(%s) ready()"
       [ArgString topic; ArgContact (contact_id inviter)] ;;;
     ret tt)
    (fun e =>
       log LogWarn "RoomInvitation" "accept() inviter(%s) is not ready because of %s"
         [ArgContact (contact_id inviter); reason_of e]).

(** [static async fromJSON (payload: string | RoomInvitationPayload)] *)
Definition fromJSON (C : ClassRef) (payload : string + RoomInvitationPayload)
  : M Realm RoomInvitation :=
  log LogVerbose "RoomInvitation" "fromJSON(%s)"
    [ArgString match payload with
               | inl text => text
               | inr object => JSON_stringify object
               end] ;;;
  payload <- match payload with
             | inl text => lift_outcome (JSON_parse text)
             | inr object => ret object
             end ;;
  wechaty <- static_wechaty C ;;
  puppet_roomInvitationPayloadSet wechaty (payload_id payload) payload ;;;
  wechaty' <- static_wechaty C ;;
  load (RoomInvitation_of wechaty') (payload_id payload).

(** [async toJSON ()] *)
Definition toJSON (this : RoomInvitation) : M Realm string :=
  log LogVerbose "RoomInvitation" "toJSON()" [] ;;;
  wechaty <- get_wechaty this ;;
  payload <- puppet_roomInvitationPayload wechaty (id this) ;;
  ret (JSON_stringify payload).

(** [wechatifyRoomInvitation (wechaty)]: the call gets a new environment
    record holding its argument and returns the class declared in it. *)
Definition wechatifyRoomInvitation (wechaty : W) : M Realm ClassRef :=
  fun s =>
    (Resolved (WechatifiedRoomInvitationRef (length (scopes (env s)))),
     {| env := {| host_env := host_env (env s); scopes := (scopes (env s) ++ [wechaty])%list |};
        trace := trace s |}).

(** What a program does with the classes and their handles, one call at a
    time. *)
Inductive Call :=
  | CallWechatify (wechaty : W)
  | CallStaticWechaty (C : ClassRef)
  | CallGetWechaty (this : RoomInvitation)
  | CallLoad (C : ClassRef) (i : string)
  | CallFromJSON (C : ClassRef) (payload : string + RoomInvitationPayload)
  | CallAccept (this : RoomInvitation)
  | CallInviter (this : RoomInvitation)
  | CallTopic (this : RoomInvitation)
  | CallMemberCount (this : RoomInvitation)
  | CallMemberList (this : RoomInvitation)
  | CallDate (this : RoomInvitation)
  | CallAge (this : RoomInvitation)
  | CallToJSON (this : RoomInvitation)
  | CallToStringAsync (this : RoomInvitation).

Definition perform (call : Call) (s : World Realm) : World Realm :=
  match call with
  | CallWechatify wechaty => snd (wechatifyRoomInvitation wechaty s)
  | CallStaticWechaty C => snd (static_wechaty C s)
  | CallGetWechaty this => snd (get_wechaty this s)
  | CallLoad C i => snd (load C i s)
  | CallFromJSON C payload => snd (fromJSON C payload s)
  | CallAccept this => snd (accept this s)
  | CallInviter this => snd (inviter this s)
  | CallTopic this => snd (topic this s)
  | CallMemberCount this => snd (memberCount this s)
  | CallMemberList this => snd (memberList this s)
  | CallDate this => snd (date this s)
  | CallAge this => snd (age this s)
  | CallToJSON this => snd (toJSON this s)
  | CallToStringAsync this => snd (toStringAsync this s)
  end.

Definition perform_all (calls : list Call) (s : World Realm) : World Realm :=
  fold_left (fun s call => perform call s) calls s.

End Factory.

Arguments Realm : clear implicits.
Arguments Call : clear implicits.

End Closure.

(** * Properties *)

Local Open Scope list_scope.

Section Properties.

Context {Env W : Type} `{!WechatyContext Env W} `{!Host Env}.

Implicit Types (w : W) (P : Puppet Env) (s : World Env) (e : Env)
  (this : RoomInvitation W) (p : RoomInvitationPayload) (x : Exn) (i : string).

(** The world after one event and one step of a collaborator. *)
Definition step (ev : Event) (e : Env) s : World Env :=
  {| env := e; trace := trace s ++ [ev] |}.

Definition logged (ev : Event) s : World Env := step ev (env s) s.

Definition constructor_log i : Event :=
  Log LogVerbose "RoomInvitation" "constructor(id=%s)" [ArgString i].

Lemma fetch_run w P i s :
  wechaty_puppet w = Some P →
  puppet_roomInvitationPayload w i s =
    (fst (roomInvitationPayload P i (env s)),
     step (PuppetRoomInvitationPayload i None) (snd (roomInvitationPayload P i (env s))) s).
Proof.
  intros HP. unfold puppet_roomInvitationPayload, puppet_of, bind, emit, external.
  rewrite HP. cbn. destruct (roomInvitationPayload P i (env s)) as [r e']. reflexivity.
Qed.

Lemma write_run w P i p s :
  wechaty_puppet w = Some P →
  puppet_roomInvitationPayloadSet w i p s =
    (fst (roomInvitationPayloadSet P i p (env s)),
     step (PuppetRoomInvitationPayload i (Some p))
          (snd (roomInvitationPayloadSet P i p (env s))) s).
Proof.
  intros HP. unfold puppet_roomInvitationPayloadSet, puppet_of, bind, emit, external.
  rewrite HP. cbn. destruct (roomInvitationPayloadSet P i p (env s)) as [r e']. reflexivity.
Qed.

Lemma accept_call_run w P i s :
  wechaty_puppet w = Some P →
  puppet_roomInvitationAccept w i s =
    (fst (roomInvitationAccept P i (env s)),
     step (PuppetRoomInvitationAccept i) (snd (roomInvitationAccept P i (env s))) s).
Proof.
  intros HP. unfold puppet_roomInvitationAccept, puppet_of, bind, emit, external.
  rewrite HP. cbn. destruct (roomInvitationAccept P i (env s)) as [r e']. reflexivity.
Qed.

Lemma get_wechaty_run this w s :
  class_of this = WechatifiedRoomInvitation w → get_wechaty this s = (Resolved w, s).
Proof. intros HC. unfold get_wechaty. rewrite HC. reflexivity. Qed.

(** Constructing on a specialised class whose context has a puppet. *)
Lemma constructor_run w i s :
  is_Some (wechaty_puppet w) →
  constructor (WechatifiedRoomInvitation w) i s =
    (Resolved {| class_of := WechatifiedRoomInvitation w; id := i |},
     logged (constructor_log i) s).
Proof.
  intros [P HP]. unfold constructor, log, bind, emit, get_wechaty. cbn.
  rewrite HP. reflexivity.
Qed.

Lemma load_run w i s :
  is_Some (wechaty_puppet w) →
  load (WechatifiedRoomInvitation w) i s =
    (Resolved {| class_of := WechatifiedRoomInvitation w; id := i |},
     logged (constructor_log i) s).
Proof.
  intros HP. unfold load, bind. rewrite constructor_run by assumption. reflexivity.
Qed.

Lemma puppet_calls_app (t1 t2 : list Event) :
  puppet_calls (t1 ++ t2) = puppet_calls t1 ++ puppet_calls t2.
Proof. apply List.filter_app. Qed.

(** C5: with a puppet in the bound context, [load(id)] returns a handle of
    the class it was called on whose [id] is the argument; it makes no
    puppet call (the collaborators' state is untouched and the trace gains
    no puppet call). *)
Theorem load_preserves_id w i s :
  is_Some (wechaty_puppet w) →
  ∃ this s',
    load (wechatifyRoomInvitation w) i s = (Resolved this, s')
    ∧ id this = i
    ∧ class_of this = wechatifyRoomInvitation w
    ∧ env s' = env s
    ∧ puppet_calls (trace s') = puppet_calls (trace s).
Proof.
  intros HP. eexists _, _. split; [apply load_run; exact HP|].
  cbn. repeat split.
  rewrite puppet_calls_app. cbn. apply app_nil_r.
Qed.

(** ** Methods on a handle of a specialised class *)

Section Bound.

Variables (w : W) (P : Puppet Env) (this : RoomInvitation W).
Hypothesis Hclass : class_of this = WechatifiedRoomInvitation w.
Hypothesis Hpuppet : wechaty_puppet w = Some P.

Definition fetch_event : Event := PuppetRoomInvitationPayload (id this) None.

Definition fetch s : Outcome RoomInvitationPayload * Env :=
  roomInvitationPayload P (id this) (env s).

(** What a method that logs [l], fetches the payload and derives [f] from
    it does. *)
Definition derived {A} (l : list Event) (f : RoomInvitationPayload → A) s
  : Outcome A * World Env :=
  (match fst (fetch s) with
   | Resolved p => Resolved (f p)
   | Rejected x => Rejected x
   end,
   {| env := snd (fetch s); trace := (trace s ++ l) ++ [fetch_event] |}).

Ltac run_fetch :=
  unfold log, bind, emit, ret, derived, fetch; cbn;
  rewrite (get_wechaty_run _ _ _ Hclass);
  rewrite (fetch_run _ _ _ _ Hpuppet); cbn;
  try rewrite (get_wechaty_run _ _ _ Hclass);
  try rewrite app_nil_r;
  destruct (roomInvitationPayload P (id this) (env _)) as [[p|x] e']; cbn;
  try reflexivity.

Lemma topic_run s :
  topic this s =
    derived [] (fun p => js_or_default truthy_string
                (js_or truthy_string (payload_topic p) (payload_topic p)) EmptyString) s.
Proof. unfold topic. run_fetch. Qed.

Lemma memberCount_run s :
  memberCount this s =
    derived [Log LogVerbose "RoomInvitation" "memberCount()" []]
      (fun p => js_or_default truthy_number
         (js_or truthy_number (payload_memberCount p) (payload_memberCount p)) 0%Z) s.
Proof. unfold memberCount. run_fetch. Qed.

Lemma inviter_run s :
  inviter this s =
    derived [Log LogVerbose "RoomInvitation" "inviter()" []]
      (fun p => Contact_load w (payload_inviterId p)) s.
Proof. unfold inviter. run_fetch. Qed.

Lemma date_run s :
  date this s =
    derived [Log LogVerbose "RoomInvitation" "date()" []]
      (fun p => timestampToDate (payload_timestamp p)) s.
Proof. unfold date. run_fetch. Qed.

Lemma toJSON_run s :
  toJSON this s =
    derived [Log LogVerbose "RoomInvitation" "toJSON()" []] JSON_stringify s.
Proof. unfold toJSON. run_fetch. Qed.

Lemma toStringAsync_run s :
  toStringAsync this s =
    derived []
      (fun p => ("RoomInvitation#" ++ id this ++ "<" ++ join_field (payload_topic p)
                 ++ "," ++ payload_inviterId p ++ ">")%string) s.
Proof. unfold toStringAsync. run_fetch. Qed.

Lemma age_run s :
  age this s =
    derived [Log LogVerbose "RoomInvitation" "date()" []]
      (fun p => Math_floor_quotient
                  (number_minus (Finite (Date_now (snd (fetch s))))
                     (getTime (timestampToDate (payload_timestamp p)))) 1000) s.
Proof.
  unfold age, bind. rewrite date_run. unfold derived, fetch, read_env, ret.
  destruct (roomInvitationPayload P (id this) (env s)) as [[p|x] e']; reflexivity.
Qed.

Lemma array_map_load (ids : list string) s :
  array_map (fun i => bind (get_wechaty this) (fun w' => ret (Contact_load w' i))) ids s
  = (Resolved (map (Contact_load w) ids), s).
Proof.
  induction ids as [|i ids IH]; [reflexivity|].
  cbn. unfold bind at 1 2. rewrite (get_wechaty_run _ _ _ Hclass). cbn.
  unfold bind at 1. rewrite IH. reflexivity.
Qed.

Definition memberList_log : Event :=
  Log LogVerbose "RoomInvitation" "roomMemberList()" [].

(** [memberList()]: the fetch, then the ready-waits of every member. *)
Lemma memberList_run s :
  memberList this s =
    match fst (fetch s) with
    | Rejected x => (Rejected x, snd (derived [memberList_log] (fun _ => tt) s))
    | Resolved p =>
        let contactList :=
          map (Contact_load w)
            (js_or_default truthy_array
               (js_or truthy_array (payload_memberIdList p) (payload_memberIdList p)) []) in
        match Promise_all (map (fun c => Contact_ready c) contactList)
                (snd (derived [memberList_log] (fun _ => tt) s)) with
        | (Resolved _, s') => (Resolved contactList, s')
        | (Rejected x, s') => (Rejected x, s')
        end
    end.
Proof.
  unfold memberList, memberList_log, log, bind at 1 2 3, emit, derived, fetch. cbn.
  rewrite (get_wechaty_run _ _ _ Hclass), (fetch_run _ _ _ _ Hpuppet). cbn.
  destruct (roomInvitationPayload P (id this) (env s)) as [[p|x] e']; cbn; [|reflexivity].
  unfold bind at 1. rewrite array_map_load. unfold bind, ret.
  destruct (Promise_all _ _) as [[l|x] s']; reflexivity.
Qed.

(** C10: a payload without a topic (or with the empty one) reads as the
    empty string, one without a member count (or with 0) reads as 0, and one
    without a member id list reads as the empty list of contacts; none of
    these reads fails. *)
Theorem accessors_default s p :
  fst (fetch s) = Resolved p →
  ((payload_topic p = None ∨ payload_topic p = Some EmptyString) →
     fst (topic this s) = Resolved EmptyString)
  ∧ ((payload_memberCount p = None ∨ payload_memberCount p = Some 0%Z) →
       fst (memberCount this s) = Resolved 0%Z)
  ∧ (payload_memberIdList p = None → fst (memberList this s) = Resolved []).
Proof.
  intros Hp. repeat split.
  - intros Ht. rewrite topic_run. unfold derived. cbn. rewrite Hp.
    destruct Ht as [-> | ->]; reflexivity.
  - intros Hn. rewrite memberCount_run. unfold derived. cbn. rewrite Hp.
    destruct Hn as [-> | ->]; reflexivity.
  - intros Hl. rewrite memberList_run, Hp, Hl. reflexivity.
Qed.

Definition ready_event (contactId : string) (r : Outcome unit) : Event :=
  ContactReady contactId r.

(** C4: with the payload of the scenario stored for this handle, [topic()]
    is T and [memberCount()] is 3; when the ready-waits of c1, c2 and c3
    resolve, [memberList()] resolves to the three handles loaded from these
    ids in order, after the three waits; and it resolves in no other way. *)
Theorem scenario_reads s e1 :
  fetch s = (Resolved scenario_payload, e1) →
  fst (topic this s) = Resolved "T"%string
  ∧ fst (memberCount this s) = Resolved 3%Z
  ∧ (∀ e2 e3 e4,
       wechaty_Contact_ready w "c1" e1 = (Resolved tt, e2) →
       wechaty_Contact_ready w "c2" e2 = (Resolved tt, e3) →
       wechaty_Contact_ready w "c3" e3 = (Resolved tt, e4) →
       memberList this s =
         (Resolved [Contact_load w "c1"; Contact_load w "c2"; Contact_load w "c3"],
          {| env := e4;
             trace := trace s ++
               [memberList_log; fetch_event;
                ready_event "c1" (Resolved tt); ready_event "c2" (Resolved tt);
                ready_event "c3" (Resolved tt)] |}))
  ∧ (∀ l s', memberList this s = (Resolved l, s') →
       l = [Contact_load w "c1"; Contact_load w "c2"; Contact_load w "c3"]
       ∧ trace s' = trace s ++
           [memberList_log; fetch_event;
            ready_event "c1" (Resolved tt); ready_event "c2" (Resolved tt);
            ready_event "c3" (Resolved tt)]).
Proof.
  intros Hp. split; [|split; [|split]].
  - rewrite topic_run. unfold derived. rewrite Hp. reflexivity.
  - rewrite memberCount_run. unfold derived. rewrite Hp. reflexivity.
  - intros e2 e3 e4 H1 H2 H3. rewrite memberList_run. unfold derived. rewrite Hp. cbn.
    unfold Contact_ready. cbn. rewrite H1. cbn. rewrite H2. cbn. rewrite H3. cbn.
    rewrite <- !app_assoc. reflexivity.
  - intros l s'. rewrite memberList_run. unfold derived. rewrite Hp. cbn.
    unfold Contact_ready. cbn.
    destruct (wechaty_Contact_ready w "c1" e1) as [r1 e2]. cbn.
    destruct (wechaty_Contact_ready w "c2" e2) as [r2 e3]. cbn.
    destruct (wechaty_Contact_ready w "c3" e3) as [r3 e4]. cbn.
    destruct r1 as [[]|x1], r2 as [[]|x2], r3 as [[]|x3]; intros [= <- <-].
    cbn. rewrite <- !app_assoc. split; reflexivity.
Qed.

(** [age()] for a fetched payload. *)
Lemma age_of_payload s p e1 :
  fetch s = (Resolved p, e1) →
  fst (age this s) =
    Resolved (Math_floor_quotient
                (number_minus (Finite (Date_now e1))
                   (getTime (timestampToDate (payload_timestamp p)))) 1000).
Proof. intros Hp. rewrite age_run. unfold derived. rewrite Hp. reflexivity. Qed.

(** C6 (as the code has it): where the date derived from the payload's
    timestamp is a valid date, [age()] is the host clock, read after the
    payload has been fetched, minus that date, in seconds rounded down
    ([Math.floor]); when the date is not in the future this is the truncated
    quotient; when it is, and the difference is not a whole number of
    seconds, it is one less.  Where the derived date is Invalid Date,
    [age()] is [NaN]. *)
Theorem age_floor s p e1 :
  fetch s = (Resolved p, e1) →
  (∀ d : Z,
     timestampToDate (payload_timestamp p) = ValidDate d →
     ∃ a : Z,
       fst (age this s) = Resolved (Finite a)
       ∧ a = ((Date_now e1 - d) / 1000)%Z
       ∧ (1000 * a ≤ Date_now e1 - d < 1000 * a + 1000)%Z
       ∧ ((d ≤ Date_now e1)%Z → a = Z.quot (Date_now e1 - d) 1000)
       ∧ ((Date_now e1 < d)%Z →
          ((Date_now e1 - d) mod 1000 ≠ 0)%Z →
            a = (Z.quot (Date_now e1 - d) 1000 - 1)%Z))
  ∧ (timestampToDate (payload_timestamp p) = InvalidDate →
       fst (age this s) = Resolved NaN).
Proof.
  intros Hp. split.
  - intros d Hd. eexists. split; [|split; [reflexivity|]].
    { rewrite (age_of_payload s p e1 Hp), Hd. reflexivity. }
    set (m := (Date_now e1 - d)%Z).
    pose proof (Z.div_mod m 1000 ltac:(lia)) as Hdiv.
    pose proof (Z.mod_pos_bound m 1000 ltac:(lia)) as Hm.
    split; [lia|]. split.
    + intros Hle. symmetry. apply Z.quot_div_nonneg; lia.
    + intros Hlt Hrem.
      pose proof (Z.quot_rem' m 1000) as Hq.
      pose proof (Z.rem_bound_pos_neg m 1000 ltac:(lia) ltac:(lia)) as Hr.
      lia.
  - intros Hd. rewrite (age_of_payload s p e1 Hp), Hd. reflexivity.
Qed.

(** C7 (as the code has it): with the same payload fetched by both calls
    and a host clock that is not earlier at the second, both calls of
    [age()] return; the second result is [>=] the first exactly when the
    date derived from the payload's timestamp is a valid date, and then both
    are integers in that order.  For Invalid Date both results are [NaN]. *)
Theorem age_monotone s1 s2 p e1 e2 :
  fetch s1 = (Resolved p, e1) →
  fetch s2 = (Resolved p, e2) →
  (Date_now e1 ≤ Date_now e2)%Z →
  ∃ r1 r2 : JsNumber,
    fst (age this s1) = Resolved r1
    ∧ fst (age this s2) = Resolved r2
    ∧ (number_ge r2 r1 = true ↔
       ∃ d : Z, timestampToDate (payload_timestamp p) = ValidDate d)
    ∧ (∀ d : Z,
         timestampToDate (payload_timestamp p) = ValidDate d →
         ∃ a1 a2 : Z, r1 = Finite a1 ∧ r2 = Finite a2 ∧ (a1 ≤ a2)%Z)
    ∧ (timestampToDate (payload_timestamp p) = InvalidDate → r1 = NaN ∧ r2 = NaN).
Proof.
  intros H1 H2 Hclock. eexists _, _.
  split; [exact (age_of_payload s1 p e1 H1)|].
  split; [exact (age_of_payload s2 p e2 H2)|].
  destruct (timestampToDate (payload_timestamp p)) as [d|]; cbn.
  - split; [|split].
    + split; [intros _; exists d; reflexivity|].
      intros _. apply Z.leb_le. apply Z.div_le_mono; lia.
    + intros d' [= <-]. eexists _, _. split; [reflexivity|]. split; [reflexivity|].
      apply Z.div_le_mono; lia.
    + discriminate.
  - split; [|split].
    + split; [discriminate|]. intros [d Hd]. discriminate Hd.
    + discriminate.
    + intros _. split; reflexivity.
Qed.

Definition accept_log : Event := Log LogVerbose "RoomInvitation" "accept()" [].
Definition inviter_log : Event := Log LogVerbose "RoomInvitation" "inviter()" [].
Definition accept_event : Event := PuppetRoomInvitationAccept (id this).

(** How [accept()] ends once the inviter's ready-wait is over. *)
Definition accept_ending (topic : string) (inviterId : string) (r : Outcome unit) : Event :=
  match r with
  | Resolved _ =>
      Log LogVerbose "RoomInvitation" "accept() with room(%s) & inviter(%s) ready()"
        [ArgString topic; ArgContact inviterId]
  | Rejected x =>
      Log LogWarn "RoomInvitation" "accept() inviter(%s) is not ready because of %s"
        [ArgContact inviterId; reason_of x]
  end.

(** [accept()] from the puppet's acceptance to the ready-wait. *)
Lemma accept_run s e1 p1 e2 p2 e3 r e4 :
  roomInvitationAccept P (id this) (env s) = (Resolved tt, e1) →
  roomInvitationPayload P (id this) e1 = (Resolved p1, e2) →
  roomInvitationPayload P (id this) e2 = (Resolved p2, e3) →
  wechaty_Contact_ready w (payload_inviterId p1) e3 = (r, e4) →
  accept this s =
    (Resolved tt,
     {| env := e4;
        trace := trace s ++
          [accept_log; accept_event; inviter_log; fetch_event; fetch_event;
           ready_event (payload_inviterId p1) r;
           accept_ending
             (js_or_default truthy_string
                (js_or truthy_string (payload_topic p2) (payload_topic p2)) EmptyString)
             (payload_inviterId p1) r] |}).
Proof.
  intros Ha H1 H2 Hr.
  unfold accept, log, bind at 1 2 3, emit. cbn.
  rewrite (get_wechaty_run _ _ _ Hclass), (accept_call_run _ _ _ _ Hpuppet). cbn.
  rewrite Ha. cbn.
  unfold bind at 1. rewrite inviter_run. unfold derived, fetch. cbn. rewrite H1. cbn.
  unfold bind at 1. rewrite topic_run. unfold derived, fetch. cbn. rewrite H2. cbn.
  unfold try_catch, bind, Contact_ready, emit, ret. cbn. rewrite Hr.
  destruct r as [[]|x]; cbn; rewrite <- !app_assoc; reflexivity.
Qed.

(** C1: once the puppet has accepted and the inviter has been resolved,
    [accept()] resolves although the inviter's ready-wait rejects; the
    rejection ends up in a warning of the log and nowhere else. *)
Theorem accept_swallows_ready_failure s e1 p1 e2 p2 e3 x e4 :
  roomInvitationAccept P (id this) (env s) = (Resolved tt, e1) →
  roomInvitationPayload P (id this) e1 = (Resolved p1, e2) →
  roomInvitationPayload P (id this) e2 = (Resolved p2, e3) →
  wechaty_Contact_ready w (payload_inviterId p1) e3 = (Rejected x, e4) →
  accept this s =
    (Resolved tt,
     {| env := e4;
        trace := trace s ++
          [accept_log; accept_event; inviter_log; fetch_event; fetch_event;
           ready_event (payload_inviterId p1) (Rejected x);
           Log LogWarn "RoomInvitation" "accept() inviter(%s) is not ready because of %s"
             [ArgContact (payload_inviterId p1); reason_of x]] |}).
Proof.
  intros Ha H1 H2 Hr. rewrite (accept_run s e1 p1 e2 p2 e3 (Rejected x) e4) by assumption.
  reflexivity.
Qed.

(** A rejected fetch rejects every method that reads the payload. *)
Lemma readers_propagate s x e1 :
  fetch s = (Rejected x, e1) →
  fst (toStringAsync this s) = Rejected x
  ∧ fst (inviter this s) = Rejected x
  ∧ fst (topic this s) = Rejected x
  ∧ fst (memberCount this s) = Rejected x
  ∧ fst (memberList this s) = Rejected x
  ∧ fst (date this s) = Rejected x
  ∧ fst (age this s) = Rejected x
  ∧ fst (toJSON this s) = Rejected x.
Proof.
  intros Hx.
  rewrite toStringAsync_run, inviter_run, topic_run, memberCount_run, memberList_run,
    date_run, age_run, toJSON_run.
  unfold derived. rewrite Hx. cbn. repeat split.
Qed.

(** A rejected puppet call inside [accept()] rejects [accept()]. *)
Lemma accept_propagates s :
  (∀ x e1, roomInvitationAccept P (id this) (env s) = (Rejected x, e1) →
     fst (accept this s) = Rejected x)
  ∧ (∀ e1 x e2,
       roomInvitationAccept P (id this) (env s) = (Resolved tt, e1) →
       roomInvitationPayload P (id this) e1 = (Rejected x, e2) →
       fst (accept this s) = Rejected x)
  ∧ (∀ e1 p1 e2 x e3,
       roomInvitationAccept P (id this) (env s) = (Resolved tt, e1) →
       roomInvitationPayload P (id this) e1 = (Resolved p1, e2) →
       roomInvitationPayload P (id this) e2 = (Rejected x, e3) →
       fst (accept this s) = Rejected x).
Proof.
  split; [|split].
  - intros x e1 Ha.
    unfold accept, log, bind at 1 2 3, emit. cbn.
    rewrite (get_wechaty_run _ _ _ Hclass), (accept_call_run _ _ _ _ Hpuppet). cbn.
    rewrite Ha. reflexivity.
  - intros e1 x e2 Ha H1.
    unfold accept, log, bind at 1 2 3, emit. cbn.
    rewrite (get_wechaty_run _ _ _ Hclass), (accept_call_run _ _ _ _ Hpuppet). cbn.
    rewrite Ha. cbn.
    unfold bind at 1. rewrite inviter_run. unfold derived, fetch. cbn. rewrite H1. reflexivity.
  - intros e1 p1 e2 x e3 Ha H1 H2.
    unfold accept, log, bind at 1 2 3, emit. cbn.
    rewrite (get_wechaty_run _ _ _ Hclass), (accept_call_run _ _ _ _ Hpuppet). cbn.
    rewrite Ha. cbn.
    unfold bind at 1. rewrite inviter_run. unfold derived, fetch. cbn. rewrite H1. cbn.
    unfold bind at 1. rewrite topic_run. unfold derived, fetch. cbn. rewrite H2. reflexivity.
Qed.

End Bound.

(** ** Construction and [fromJSON] *)

Definition direct_instantiation : Exn :=
  ErrorObject PlainError
    "RoomInvitation class can not be instantiated directly! See: https://github.com/wechaty/wechaty/issues/1217".

Definition no_puppet : Exn :=
  ErrorObject PlainError "RoomInvitation class can not be instantiated without a puppet!".

Lemma constructor_base i s :
  constructor RoomInvitationBase i s = (Rejected direct_instantiation, logged (constructor_log i) s).
Proof. reflexivity. Qed.

Lemma constructor_without_puppet w i s :
  wechaty_puppet w = None →
  constructor (WechatifiedRoomInvitation w) i s = (Rejected no_puppet, logged (constructor_log i) s).
Proof.
  intros HP. unfold constructor, log, bind, emit, get_wechaty. cbn. rewrite HP. reflexivity.
Qed.

(** The payload [fromJSON] works on, once its argument has been parsed. *)
Definition parsed (payload : string + RoomInvitationPayload) : Outcome RoomInvitationPayload :=
  match payload with
  | inl text => JSON_parse text
  | inr object => Resolved object
  end.

Definition fromJSON_log (payload : string + RoomInvitationPayload) : Event :=
  Log LogVerbose "RoomInvitation" "fromJSON(%s)"
    [ArgString match payload with
               | inl text => text
               | inr object => JSON_stringify object
               end].

Definition write_event p : Event := PuppetRoomInvitationPayload (payload_id p) (Some p).

Lemma fromJSON_unparsed C payload x s :
  parsed payload = Rejected x →
  fromJSON C payload s = (Rejected x, logged (fromJSON_log payload) s).
Proof.
  intros Hx. unfold fromJSON, log, bind at 1 2, emit. cbn.
  destruct payload as [text|object]; cbn in Hx; [|discriminate].
  unfold lift_outcome. rewrite Hx. reflexivity.
Qed.

Lemma fromJSON_run w P payload p s :
  wechaty_puppet w = Some P →
  parsed payload = Resolved p →
  fromJSON (WechatifiedRoomInvitation w) payload s =
    match roomInvitationPayloadSet P (payload_id p) p (env s) with
    | (Resolved _, e1) =>
        load (wechaty_RoomInvitation w) (payload_id p)
          {| env := e1; trace := trace s ++ [fromJSON_log payload; write_event p] |}
    | (Rejected x, e1) =>
        (Rejected x, {| env := e1; trace := trace s ++ [fromJSON_log payload; write_event p] |})
    end.
Proof.
  intros HP Hp. unfold fromJSON, log, bind at 1 2, emit. cbn.
  assert (match payload with
          | inl text => lift_outcome (JSON_parse text)
          | inr object => ret object
          end = lift_outcome (Env := Env) (Resolved p)) as ->.
  { destruct payload; cbn in Hp; [rewrite Hp|injection Hp as ->]; reflexivity. }
  unfold lift_outcome. cbn. unfold bind at 1. rewrite (write_run _ _ _ _ _ HP). cbn.
  destruct (roomInvitationPayloadSet P (payload_id p) p (env s)) as [[[]|x] e1]; cbn.
  - unfold step. cbn. rewrite <- app_assoc. reflexivity.
  - unfold step. cbn. rewrite <- app_assoc. reflexivity.
Qed.

(** C3: malformed text makes [fromJSON] reject with the parse error, with
    nothing done but its log line (no puppet call); otherwise the payload is
    written through to the puppet first, a rejected write-through rejects
    [fromJSON] with no handle constructed, and after an accepted one the
    handle is constructed, with the payload's id. *)
Theorem fromJSON_order :
  (∀ (C : RoomInvitationClass W) (text : string) x s,
     JSON_parse text = Rejected x →
     fromJSON C (inl text) s = (Rejected x, logged (fromJSON_log (inl text)) s)
     ∧ puppet_calls (trace (snd (fromJSON C (inl text) s))) = puppet_calls (trace s))
  ∧ (∀ w P payload p s,
       wechaty_puppet w = Some P →
       wechaty_RoomInvitation w = WechatifiedRoomInvitation w →
       parsed payload = Resolved p →
       match roomInvitationPayloadSet P (payload_id p) p (env s) with
       | (Resolved _, e1) =>
           fromJSON (WechatifiedRoomInvitation w) payload s =
             (Resolved {| class_of := WechatifiedRoomInvitation w; id := payload_id p |},
              {| env := e1;
                 trace := trace s ++
                   [fromJSON_log payload; write_event p; constructor_log (payload_id p)] |})
       | (Rejected x, e1) =>
           fromJSON (WechatifiedRoomInvitation w) payload s =
             (Rejected x,
              {| env := e1; trace := trace s ++ [fromJSON_log payload; write_event p] |})
       end).
Proof.
  split.
  - intros C text x s Hx.
    rewrite (fromJSON_unparsed C (inl text) x s Hx). split; [reflexivity|].
    cbn. rewrite puppet_calls_app. cbn. apply app_nil_r.
  - intros w P payload p s HP HC Hp.
    rewrite (fromJSON_run w P payload p s HP Hp), HC.
    destruct (roomInvitationPayloadSet P (payload_id p) p (env s)) as [[[]|x] e1]; [|reflexivity].
    rewrite load_run by (rewrite HP; eauto).
    unfold logged, step. cbn. rewrite <- app_assoc. reflexivity.
Qed.

(** C8: constructing on the base class, or on a specialised class whose
    context has no puppet, throws with nothing done but the constructor's
    log line; and a rejected puppet call rejects, with the same error,
    every method that makes it. *)
Theorem failures_surface :
  (∀ i s,
     constructor RoomInvitationBase i s
     = (Rejected direct_instantiation, logged (constructor_log i) s))
  ∧ (∀ w i s,
       wechaty_puppet w = None →
       constructor (WechatifiedRoomInvitation w) i s
       = (Rejected no_puppet, logged (constructor_log i) s))
  ∧ (∀ w P this s x e1,
       class_of this = WechatifiedRoomInvitation w →
       wechaty_puppet w = Some P →
       roomInvitationPayload P (id this) (env s) = (Rejected x, e1) →
       fst (toStringAsync this s) = Rejected x
       ∧ fst (inviter this s) = Rejected x
       ∧ fst (topic this s) = Rejected x
       ∧ fst (memberCount this s) = Rejected x
       ∧ fst (memberList this s) = Rejected x
       ∧ fst (date this s) = Rejected x
       ∧ fst (age this s) = Rejected x
       ∧ fst (toJSON this s) = Rejected x)
  ∧ (∀ w P this s,
       class_of this = WechatifiedRoomInvitation w →
       wechaty_puppet w = Some P →
       (∀ x e1, roomInvitationAccept P (id this) (env s) = (Rejected x, e1) →
          fst (accept this s) = Rejected x)
       ∧ (∀ e1 x e2,
            roomInvitationAccept P (id this) (env s) = (Resolved tt, e1) →
            roomInvitationPayload P (id this) e1 = (Rejected x, e2) →
            fst (accept this s) = Rejected x)
       ∧ (∀ e1 p1 e2 x e3,
            roomInvitationAccept P (id this) (env s) = (Resolved tt, e1) →
            roomInvitationPayload P (id this) e1 = (Resolved p1, e2) →
            roomInvitationPayload P (id this) e2 = (Rejected x, e3) →
            fst (accept this s) = Rejected x))
  ∧ (∀ w P payload p s x e1,
       wechaty_puppet w = Some P →
       parsed payload = Resolved p →
       roomInvitationPayloadSet P (payload_id p) p (env s) = (Rejected x, e1) →
       fst (fromJSON (WechatifiedRoomInvitation w) payload s) = Rejected x).
Proof.
  split; [exact constructor_base|].
  split; [exact constructor_without_puppet|].
  split; [intros w P this s x e1 HC HP Hx; exact (readers_propagate w P this HC HP s x e1 Hx)|].
  split; [intros w P this s HC HP; exact (accept_propagates w P this HC HP s)|].
  intros w P payload p s x e1 HP Hp Hx.
  rewrite (fromJSON_run w P payload p s HP Hp), Hx. reflexivity.
Qed.

(** ** The bound context *)

Lemma constructor_class (C : RoomInvitationClass W) i s this s' :
  constructor C i s = (Resolved this, s') → class_of this = C ∧ id this = i.
Proof.
  unfold constructor, log, bind, emit, get_wechaty. cbn.
  destruct C as [|w]; cbn; [discriminate|].
  destruct (wechaty_puppet w); cbn; [|discriminate].
  intros [= <- <-]. split; reflexivity.
Qed.

Lemma load_class (C : RoomInvitationClass W) i s this s' :
  load C i s = (Resolved this, s') → class_of this = C ∧ id this = i.
Proof.
  unfold load, bind, ret. destruct (constructor C i s) as [[h|x] s1] eqn:Hc; [|discriminate].
  intros [= <- <-]. exact (constructor_class C i s h s1 Hc).
Qed.

(** ** Serialisation round trip *)

(** A stable payload store: [stored i p e] says the puppet holds [p] for
    [i] in [e]; a fetch returns what is stored and keeps it, and an accepted
    write-through stores. *)
Class StableStore (P : Puppet Env) (stored : string → RoomInvitationPayload → Env → Prop)
  : Prop := {
  stored_fetch i p e :
    stored i p e →
    fst (roomInvitationPayload P i e) = Resolved p
    ∧ stored i p (snd (roomInvitationPayload P i e));
  stored_written i p e :
    fst (roomInvitationPayloadSet P i p e) = Resolved tt →
    stored i p (snd (roomInvitationPayloadSet P i p e));
}.

Lemma js_or_same {A} (truthy : A → bool) (a : option A) (d : A) :
  js_or_default truthy (js_or truthy a a) d = js_or_default truthy a d.
Proof. destruct a as [v|]; cbn; [destruct (truthy v) eqn:Hv; cbn; rewrite ?Hv|]; reflexivity. Qed.

Lemma Promise_all_ready w (ids : list string) s :
  (∀ c e, fst (wechaty_Contact_ready w c e) = Resolved tt) →
  ∃ l s', Promise_all (map (fun c => Contact_ready c) (map (Contact_load w) ids)) s
          = (Resolved l, s').
Proof.
  intros Hready. revert s. induction ids as [|i ids IH]; intros s; [eexists _, _; reflexivity|].
  cbn. unfold Contact_ready at 1. cbn.
  specialize (Hready i (env s)).
  destruct (wechaty_Contact_ready w i (env s)) as [r e']. cbn in Hready. subst r.
  edestruct IH as (l & s' & ->). eexists _, _. reflexivity.
Qed.

(** Reads on a handle whose payload is stored. *)
Lemma reads_when_stored
    (P : Puppet Env) (stored : string → RoomInvitationPayload → Env → Prop)
    `{!StableStore P stored} w this s p :
  class_of this = WechatifiedRoomInvitation w →
  wechaty_puppet w = Some P →
  stored (id this) p (env s) →
  fst (topic this s) = Resolved (js_or_default truthy_string (payload_topic p) EmptyString)
  ∧ fst (memberCount this s)
    = Resolved (js_or_default truthy_number (payload_memberCount p) 0%Z)
  ∧ fst (date this s) = Resolved (timestampToDate (payload_timestamp p))
  ∧ fst (inviter this s) = Resolved (Contact_load w (payload_inviterId p))
  ∧ ((∀ c e, fst (wechaty_Contact_ready w c e) = Resolved tt) →
       fst (memberList this s)
       = Resolved (map (Contact_load w)
                     (js_or_default truthy_array (payload_memberIdList p) []))).
Proof.
  intros HC HP Hstored.
  destruct (stored_fetch _ _ _ Hstored) as [Hfetch _].
  rewrite (topic_run w P this HC HP), (memberCount_run w P this HC HP),
    (date_run w P this HC HP), (inviter_run w P this HC HP),
    (memberList_run w P this HC HP).
  unfold derived, fetch. rewrite Hfetch. cbn. rewrite !js_or_same.
  repeat split.
  intros Hready.
  match goal with
  | |- context [Promise_all _ ?s0] =>
      destruct (Promise_all_ready w
                  (js_or_default truthy_array (payload_memberIdList p) []) s0 Hready)
        as (l & s' & Hall)
  end.
  rewrite Hall. reflexivity.
Qed.

(** [toJSON()] on a handle whose payload is stored. *)
Lemma toJSON_when_stored
    (P : Puppet Env) (stored : string → RoomInvitationPayload → Env → Prop)
    `{!StableStore P stored} w this s p :
  class_of this = WechatifiedRoomInvitation w →
  wechaty_puppet w = Some P →
  stored (id this) p (env s) →
  toJSON this s =
    (Resolved (JSON_stringify p),
     {| env := snd (roomInvitationPayload P (id this) (env s));
        trace := (trace s ++ [Log LogVerbose "RoomInvitation" "toJSON()" []])
                 ++ [fetch_event this] |}).
Proof.
  intros HC HP Hstored.
  destruct (stored_fetch _ _ _ Hstored) as [Hfetch _].
  rewrite (toJSON_run w P this HC HP). unfold derived, fetch. rewrite Hfetch. reflexivity.
Qed.

(** [fromJSON] on a text the codec reads as [p], when the write-through is
    accepted. *)
Lemma fromJSON_when_accepted w P (text : string) p s :
  wechaty_puppet w = Some P →
  wechaty_RoomInvitation w = WechatifiedRoomInvitation w →
  JSON_parse text = Resolved p →
  fst (roomInvitationPayloadSet P (payload_id p) p (env s)) = Resolved tt →
  fromJSON (WechatifiedRoomInvitation w) (inl text) s =
    (Resolved {| class_of := WechatifiedRoomInvitation w; id := payload_id p |},
     {| env := snd (roomInvitationPayloadSet P (payload_id p) p (env s));
        trace := (trace s ++ [fromJSON_log (inl text); write_event p])
                 ++ [constructor_log (payload_id p)] |}).
Proof.
  intros HP HR Hparse Hwrite.
  rewrite (fromJSON_run w P (inl text) p s HP Hparse).
  rewrite (surjective_pairing (roomInvitationPayloadSet P (payload_id p) p (env s))).
  rewrite Hwrite, HR. rewrite load_run by (rewrite HP; eauto). reflexivity.
Qed.


End Properties.

(** * The class factory: the bound context *)

Section FactoryProperties.

Context {Env W : Type} `{!WechatyContext Env W} `{!Host Env}.
Variable RoomInvitation_of : W -> Closure.ClassRef.

#[local] Existing Instance Closure.realm_context.
#[local] Existing Instance Closure.realm_host.

(** A computation that leaves every environment record as it found it. *)
Definition keeps_scopes {A} (m : M (Closure.Realm Env W) A) : Prop :=
  ∀ s, Closure.scopes (env (snd (m s))) = Closure.scopes (env s).

Lemma keeps_ret {A} (a : A) : keeps_scopes (ret a).
Proof. intros s. reflexivity. Qed.

Lemma keeps_throw {A} (x : Exn) : keeps_scopes (throw (A := A) x).
Proof. intros s. reflexivity. Qed.

Lemma keeps_lift_outcome {A} (r : Outcome A) : keeps_scopes (lift_outcome r).
Proof. intros s. reflexivity. Qed.

Lemma keeps_read_env {A} (f : Closure.Realm Env W -> A) : keeps_scopes (read_env f).
Proof. intros s. reflexivity. Qed.

Lemma keeps_emit (ev : Event) : keeps_scopes (emit ev).
Proof. intros s. reflexivity. Qed.

Lemma keeps_log level module format args :
  keeps_scopes (log (Env := Closure.Realm Env W) level module format args).
Proof. apply keeps_emit. Qed.

Lemma keeps_bind {A B} (m : M (Closure.Realm Env W) A)
    (k : A -> M (Closure.Realm Env W) B) :
  keeps_scopes m → (∀ a, keeps_scopes (k a)) → keeps_scopes (bind m k).
Proof.
  intros Hm Hk s. unfold bind. specialize (Hm s).
  destruct (m s) as [[a|x] s1]; cbn in *; [|exact Hm].
  rewrite (Hk a s1). exact Hm.
Qed.

Lemma keeps_try_catch {A} (body : M (Closure.Realm Env W) A)
    (handler : Exn -> M (Closure.Realm Env W) A) :
  keeps_scopes body → (∀ x, keeps_scopes (handler x)) →
  keeps_scopes (try_catch body handler).
Proof.
  intros Hm Hk s. unfold try_catch. specialize (Hm s).
  destruct (body s) as [[a|x] s1]; cbn in *; [exact Hm|].
  rewrite (Hk x s1). exact Hm.
Qed.

Lemma keeps_outside {A} (f : Env -> Outcome A * Env) :
  keeps_scopes (external (Closure.outside f)).
Proof.
  intros s. unfold external, Closure.outside.
  destruct (f (Closure.host_env (env s))) as [o e']. reflexivity.
Qed.

Lemma keeps_read_variable scope : keeps_scopes (Closure.read_variable scope).
Proof.
  intros s. unfold Closure.read_variable.
  destruct (Closure.scopes (env s) !! scope); reflexivity.
Qed.

Lemma keeps_static_wechaty C : keeps_scopes (Closure.static_wechaty C).
Proof. destruct C; [apply keeps_throw|apply keeps_read_variable]. Qed.

Lemma keeps_get_wechaty this : keeps_scopes (Closure.get_wechaty this).
Proof.
  unfold Closure.get_wechaty.
  destruct (Closure.class_of this); [apply keeps_throw|apply keeps_read_variable].
Qed.

(** A puppet call: the puppet, if there is one, runs outside. *)
Lemma keeps_puppet_of (wechaty : W) {A}
    (call : Puppet (Closure.Realm Env W) -> M (Closure.Realm Env W) A) :
  (∀ puppet, keeps_scopes (call (Closure.realm_puppet puppet))) →
  keeps_scopes (bind (puppet_of wechaty) call).
Proof.
  intros Hcall s. unfold bind, puppet_of. cbn.
  destruct (wechaty_puppet wechaty) as [puppet|]; cbn; [apply Hcall|reflexivity].
Qed.

Lemma keeps_puppet_roomInvitationPayload (wechaty : W) i :
  keeps_scopes (puppet_roomInvitationPayload (Env := Closure.Realm Env W) wechaty i).
Proof.
  apply keeps_puppet_of. intros puppet.
  apply keeps_bind; [apply keeps_emit|]. intros _. apply keeps_outside.
Qed.

Lemma keeps_puppet_roomInvitationPayloadSet (wechaty : W) i payload :
  keeps_scopes
    (puppet_roomInvitationPayloadSet (Env := Closure.Realm Env W) wechaty i payload).
Proof.
  apply keeps_puppet_of. intros puppet.
  apply keeps_bind; [apply keeps_emit|]. intros _. apply keeps_outside.
Qed.

Lemma keeps_puppet_roomInvitationAccept (wechaty : W) i :
  keeps_scopes (puppet_roomInvitationAccept (Env := Closure.Realm Env W) wechaty i).
Proof.
  apply keeps_puppet_of. intros puppet.
  apply keeps_bind; [apply keeps_emit|]. intros _. apply keeps_outside.
Qed.

Lemma keeps_Contact_ready (c : Contact W) :
  keeps_scopes (Contact_ready (Env := Closure.Realm Env W) c).
Proof.
  intros s. unfold Contact_ready. cbn. unfold Closure.outside.
  destruct (wechaty_Contact_ready _ _ _) as [o e']. reflexivity.
Qed.

Lemma keeps_Promise_all {A} (ps : list (M (Closure.Realm Env W) A)) :
  Forall keeps_scopes ps → keeps_scopes (Promise_all ps).
Proof.
  induction 1 as [|p ps Hp _ IH]; [apply keeps_ret|].
  intros s. cbn. specialize (Hp s). destruct (p s) as [r s1].
  specialize (IH s1). destruct (Promise_all ps s1) as [rs s2].
  cbn in *. congruence.
Qed.

Lemma keeps_array_map {A B} (f : A -> M (Closure.Realm Env W) B) (l : list A) :
  (∀ a, keeps_scopes (f a)) → keeps_scopes (array_map f l).
Proof.
  intros Hf. induction l as [|a l IH]; [apply keeps_ret|].
  cbn. apply keeps_bind; [apply Hf|]. intros b.
  apply keeps_bind; [exact IH|]. intros bs. apply keeps_ret.
Qed.

Create HintDb keeps discriminated.

#[local] Hint Resolve keeps_ret keeps_throw keeps_lift_outcome keeps_read_env keeps_emit
  keeps_log keeps_read_variable keeps_static_wechaty keeps_get_wechaty
  keeps_puppet_roomInvitationPayload keeps_puppet_roomInvitationPayloadSet
  keeps_puppet_roomInvitationAccept keeps_Contact_ready : keeps.

(** Every step of a method body keeps the environment records. *)
Ltac keeps :=
  repeat match goal with
    | |- keeps_scopes (bind _ _) => apply keeps_bind; [|intros ?]
    | |- keeps_scopes (try_catch _ _) => apply keeps_try_catch; [|intros ?]
    | |- keeps_scopes _ => solve [auto with keeps]
    end.

Lemma keeps_constructor C i : keeps_scopes (Closure.constructor C i).
Proof.
  unfold Closure.constructor. keeps. destruct C; keeps.
  destruct (wechaty_puppet _); keeps.
Qed.

Lemma keeps_load C i : keeps_scopes (Closure.load C i).
Proof. unfold Closure.load. keeps. apply keeps_constructor. Qed.

Lemma keeps_toStringAsync this : keeps_scopes (Closure.toStringAsync this).
Proof. unfold Closure.toStringAsync. keeps. Qed.

Lemma keeps_inviter this : keeps_scopes (Closure.inviter this).
Proof. unfold Closure.inviter. keeps. Qed.

Lemma keeps_topic this : keeps_scopes (Closure.topic this).
Proof. unfold Closure.topic. keeps. Qed.

Lemma keeps_memberCount this : keeps_scopes (Closure.memberCount this).
Proof. unfold Closure.memberCount. keeps. Qed.

Lemma keeps_memberList this : keeps_scopes (Closure.memberList this).
Proof.
  unfold Closure.memberList. keeps.
  - apply keeps_array_map. intros i. keeps.
  - apply keeps_Promise_all. apply Forall_map, Forall_forall. intros c _.
    apply keeps_Contact_ready.
Qed.

Lemma keeps_date this : keeps_scopes (Closure.date this).
Proof. unfold Closure.date. keeps. Qed.

Lemma keeps_age this : keeps_scopes (Closure.age this).
Proof. unfold Closure.age. keeps. apply keeps_date. Qed.

Lemma keeps_accept this : keeps_scopes (Closure.accept this).
Proof. unfold Closure.accept. keeps; [apply keeps_inviter|apply keeps_topic]. Qed.

Lemma keeps_fromJSON C payload : keeps_scopes (Closure.fromJSON RoomInvitation_of C payload).
Proof. unfold Closure.fromJSON. keeps; [destruct payload; keeps|apply keeps_load]. Qed.

Lemma keeps_toJSON this : keeps_scopes (Closure.toJSON this).
Proof. unfold Closure.toJSON. keeps. Qed.

(** A call keeps the environment records there are; [wechatifyRoomInvitation]
    adds one. *)
Lemma perform_scopes (call : Closure.Call W) s :
  ∃ new,
    Closure.scopes (env (Closure.perform RoomInvitation_of call s))
    = Closure.scopes (env s) ++ new.
Proof.
  destruct call as [wechaty| | | | | | | | | | | | |]; cbn [Closure.perform];
    [exists [wechaty]; reflexivity|exists []; rewrite app_nil_r ..].
  - apply keeps_static_wechaty.
  - apply keeps_get_wechaty.
  - apply keeps_load.
  - apply keeps_fromJSON.
  - apply keeps_accept.
  - apply keeps_inviter.
  - apply keeps_topic.
  - apply keeps_memberCount.
  - apply keeps_memberList.
  - apply keeps_date.
  - apply keeps_age.
  - apply keeps_toJSON.
  - apply keeps_toStringAsync.
Qed.

Lemma perform_all_scopes (calls : list (Closure.Call W)) s :
  ∃ new,
    Closure.scopes (env (Closure.perform_all RoomInvitation_of calls s))
    = Closure.scopes (env s) ++ new.
Proof.
  revert s. induction calls as [|call calls IH]; intros s.
  - exists []. cbn. rewrite app_nil_r. reflexivity.
  - cbn. destruct (IH (Closure.perform RoomInvitation_of call s)) as [new2 H2].
    destruct (perform_scopes call s) as [new1 H1].
    exists (new1 ++ new2). unfold Closure.perform_all in H2.
    rewrite H2, H1, app_assoc. reflexivity.
Qed.

(** The getters return what the environment record holds, and nothing
    else. *)
Lemma static_wechaty_reads scope (s : World (Closure.Realm Env W)) (wechaty : W) :
  fst (Closure.static_wechaty (Closure.WechatifiedRoomInvitationRef scope) s) = Resolved wechaty
  ↔ Closure.scopes (env s) !! scope = Some wechaty.
Proof.
  cbn. unfold Closure.read_variable. destruct (Closure.scopes (env s) !! scope); cbn.
  - split; intros [= ->]; reflexivity.
  - split; discriminate.
Qed.

Lemma get_wechaty_reads scope i (s : World (Closure.Realm Env W)) (wechaty : W) :
  fst (Closure.get_wechaty
         {| Closure.class_of := Closure.WechatifiedRoomInvitationRef scope;
            Closure.id := i |} s)
    = Resolved wechaty
  ↔ Closure.scopes (env s) !! scope = Some wechaty.
Proof. exact (static_wechaty_reads scope s wechaty). Qed.

(** *** The facade is the same program

    Where the environment record of a class holds [wechaty], the methods on
    a handle of that class do what the methods of the facade above do on
    the handle of the class [WechatifiedRoomInvitation wechaty]. *)

Definition bare (s : World (Closure.Realm Env W)) : World Env :=
  {| env := Closure.host_env (env s); trace := trace s |}.

Definition dress (records : list W) (s : World Env) : World (Closure.Realm Env W) :=
  {| env := {| Closure.host_env := env s; Closure.scopes := records |}; trace := trace s |}.

Definition agrees {A} (scope : nat) (wechaty : W)
    (m : M (Closure.Realm Env W) A) (m' : M Env A) : Prop :=
  ∀ s, Closure.scopes (env s) !! scope = Some wechaty →
       m s = (fst (m' (bare s)), dress (Closure.scopes (env s)) (snd (m' (bare s)))).

Lemma bare_dress records (s : World Env) : bare (dress records s) = s.
Proof. destruct s. reflexivity. Qed.

Lemma dress_bare (s : World (Closure.Realm Env W)) : dress (Closure.scopes (env s)) (bare s) = s.
Proof. destruct s as [[e records] t]. reflexivity. Qed.

Section Agrees.

Variables (scope : nat) (wechaty : W).

Lemma agrees_ret {A} (a : A) : agrees scope wechaty (ret a) (ret a).
Proof. intros s _. unfold ret. cbn. rewrite dress_bare. reflexivity. Qed.

Lemma agrees_throw {A} (x : Exn) : agrees scope wechaty (throw (A := A) x) (throw x).
Proof. intros s _. unfold throw. cbn. rewrite dress_bare. reflexivity. Qed.

Lemma agrees_lift_outcome {A} (r : Outcome A) :
  agrees scope wechaty (lift_outcome r) (lift_outcome r).
Proof. intros s _. unfold lift_outcome. cbn. rewrite dress_bare. reflexivity. Qed.

Lemma agrees_emit (ev : Event) : agrees scope wechaty (emit ev) (emit ev).
Proof. intros [[e records] t] _. reflexivity. Qed.

Lemma agrees_log level module format args :
  agrees scope wechaty (log level module format args) (log level module format args).
Proof. apply agrees_emit. Qed.

Lemma agrees_Date_now : agrees scope wechaty (read_env Date_now) (read_env Date_now).
Proof. intros [[e records] t] _. reflexivity. Qed.

Lemma agrees_bind {A B} (m : M (Closure.Realm Env W) A) m' (k : A -> M (Closure.Realm Env W) B) k' :
  agrees scope wechaty m m' → (∀ a, agrees scope wechaty (k a) (k' a)) →
  agrees scope wechaty (bind m k) (bind m' k').
Proof.
  intros Hm Hk s Hs. unfold bind. rewrite (Hm s Hs).
  destruct (m' (bare s)) as [[a|x] s1]; cbn; [|reflexivity].
  rewrite (Hk a (dress (Closure.scopes (env s)) s1) Hs), bare_dress. reflexivity.
Qed.

Lemma agrees_try_catch {A} (m : M (Closure.Realm Env W) A) m'
    (k : Exn -> M (Closure.Realm Env W) A) k' :
  agrees scope wechaty m m' → (∀ x, agrees scope wechaty (k x) (k' x)) →
  agrees scope wechaty (try_catch m k) (try_catch m' k').
Proof.
  intros Hm Hk s Hs. unfold try_catch. rewrite (Hm s Hs).
  destruct (m' (bare s)) as [[a|x] s1]; cbn; [reflexivity|].
  rewrite (Hk x (dress (Closure.scopes (env s)) s1) Hs), bare_dress. reflexivity.
Qed.

Lemma agrees_outside {A} (f : Env -> Outcome A * Env) :
  agrees scope wechaty (external (Closure.outside f)) (external f).
Proof.
  intros [[e records] t] _. unfold external, Closure.outside, bare, dress. cbn.
  destruct (f e) as [o e']. reflexivity.
Qed.

Lemma agrees_get_wechaty (this : Closure.RoomInvitation) (this' : RoomInvitation W) :
  Closure.class_of this = Closure.WechatifiedRoomInvitationRef scope →
  class_of this' = WechatifiedRoomInvitation wechaty →
  agrees scope wechaty (Closure.get_wechaty this) (get_wechaty this').
Proof.
  intros HC HC' s Hs. unfold Closure.get_wechaty, get_wechaty, Closure.read_variable.
  rewrite HC, HC', Hs. unfold ret. rewrite dress_bare. reflexivity.
Qed.

Lemma agrees_puppet_roomInvitationPayload (w : W) i :
  agrees scope wechaty (puppet_roomInvitationPayload w i) (puppet_roomInvitationPayload w i).
Proof.
  intros s Hs. unfold puppet_roomInvitationPayload, bind at 1 3, puppet_of. cbn.
  destruct (wechaty_puppet w) as [puppet|]; cbn.
  - apply (agrees_bind _ _ _ _ (agrees_emit _) (fun _ => agrees_outside _) s Hs).
  - rewrite dress_bare. reflexivity.
Qed.

Lemma agrees_puppet_roomInvitationAccept (w : W) i :
  agrees scope wechaty (puppet_roomInvitationAccept w i) (puppet_roomInvitationAccept w i).
Proof.
  intros s Hs. unfold puppet_roomInvitationAccept, bind at 1 3, puppet_of. cbn.
  destruct (wechaty_puppet w) as [puppet|]; cbn.
  - apply (agrees_bind _ _ _ _ (agrees_emit _) (fun _ => agrees_outside _) s Hs).
  - rewrite dress_bare. reflexivity.
Qed.

Lemma agrees_Contact_ready (c : Contact W) :
  agrees scope wechaty (Contact_ready c) (Contact_ready c).
Proof.
  intros [[e records] t] _. unfold Contact_ready, bare, dress. cbn. unfold Closure.outside. cbn.
  destruct (wechaty_Contact_ready _ _ e) as [o e']. reflexivity.
Qed.

Lemma agrees_Promise_all {A} (ps : list (M (Closure.Realm Env W) A)) (ps' : list (M Env A)) :
  Forall2 (agrees scope wechaty) ps ps' →
  agrees scope wechaty (Promise_all ps) (Promise_all ps').
Proof.
  induction 1 as [|p p' ps ps' Hp _ IH]; [apply agrees_ret|].
  intros s Hs. cbn. rewrite (Hp s Hs).
  destruct (p' (bare s)) as [r s1]. cbn.
  rewrite (IH (dress (Closure.scopes (env s)) s1) Hs), bare_dress.
  destruct (Promise_all ps' s1) as [rs s2]. reflexivity.
Qed.

Lemma agrees_array_map {A B} (f : A -> M (Closure.Realm Env W) B) f' (l : list A) :
  (∀ a, agrees scope wechaty (f a) (f' a)) →
  agrees scope wechaty (array_map f l) (array_map f' l).
Proof.
  intros Hf. induction l as [|a l IH]; [apply agrees_ret|].
  cbn. apply agrees_bind; [apply Hf|]. intros b.
  apply agrees_bind; [exact IH|]. intros bs. apply agrees_ret.
Qed.

Variables (this : Closure.RoomInvitation) (this' : RoomInvitation W).
Hypothesis Hthis : Closure.class_of this = Closure.WechatifiedRoomInvitationRef scope.
Hypothesis Hthis' : class_of this' = WechatifiedRoomInvitation wechaty.
Hypothesis Hid : id this' = Closure.id this.

Ltac agrees :=
  repeat match goal with
    | |- agrees _ _ (bind _ _) (bind _ _) => apply agrees_bind; [|intros ?]
    | |- agrees _ _ (try_catch _ _) (try_catch _ _) => apply agrees_try_catch; [|intros ?]
    | |- agrees _ _ (Closure.get_wechaty _) _ => exact (agrees_get_wechaty this this' Hthis Hthis')
    | |- agrees _ _ (ret _) _ => apply agrees_ret
    | |- agrees _ _ (log _ _ _ _) _ => apply agrees_log
    | |- agrees _ _ (puppet_roomInvitationPayload _ _) _ =>
        apply agrees_puppet_roomInvitationPayload
    | |- agrees _ _ (puppet_roomInvitationAccept _ _) _ =>
        apply agrees_puppet_roomInvitationAccept
    | |- agrees _ _ (Contact_ready _) _ => apply agrees_Contact_ready
    | |- agrees _ _ (read_env _) _ => apply agrees_Date_now
    end.

Lemma agrees_toStringAsync :
  agrees scope wechaty (Closure.toStringAsync this) (toStringAsync this').
Proof. unfold Closure.toStringAsync, toStringAsync. rewrite Hid. agrees. Qed.

Lemma agrees_inviter : agrees scope wechaty (Closure.inviter this) (inviter this').
Proof. unfold Closure.inviter, inviter. rewrite Hid. agrees. Qed.

Lemma agrees_topic : agrees scope wechaty (Closure.topic this) (topic this').
Proof. unfold Closure.topic, topic. rewrite Hid. agrees. Qed.

Lemma agrees_memberCount :
  agrees scope wechaty (Closure.memberCount this) (memberCount this').
Proof. unfold Closure.memberCount, memberCount. rewrite Hid. agrees. Qed.

Lemma agrees_memberList :
  agrees scope wechaty (Closure.memberList this) (memberList this').
Proof.
  unfold Closure.memberList, memberList. rewrite Hid. agrees.
  - apply agrees_array_map. intros i. agrees.
  - apply agrees_Promise_all. apply Forall2_fmap, Forall_Forall2_diag, Forall_forall.
    intros c _. apply agrees_Contact_ready.
Qed.

Lemma agrees_date : agrees scope wechaty (Closure.date this) (date this').
Proof. unfold Closure.date, date. rewrite Hid. agrees. Qed.

Lemma agrees_age : agrees scope wechaty (Closure.age this) (age this').
Proof. unfold Closure.age, age. agrees. apply agrees_date. Qed.

Lemma agrees_toJSON : agrees scope wechaty (Closure.toJSON this) (toJSON this').
Proof. unfold Closure.toJSON, toJSON. rewrite Hid. agrees. Qed.

Lemma agrees_accept : agrees scope wechaty (Closure.accept this) (accept this').
Proof.
  unfold Closure.accept, accept. rewrite Hid. agrees;
    [apply agrees_inviter|apply agrees_topic].
Qed.

End Agrees.

(** The variable of a call [wechatifyRoomInvitation (wechaty)], right after
    the call and after the calls that follow. *)
Lemma variable_after_calls (wechaty : W) (calls : list (Closure.Call W))
    (s : World (Closure.Realm Env W)) :
  let s0 := snd (Closure.wechatifyRoomInvitation wechaty s) in
  Closure.scopes (env s0) !! length (Closure.scopes (env s)) = Some wechaty
  ∧ Closure.scopes (env (Closure.perform_all RoomInvitation_of calls s0))
      !! length (Closure.scopes (env s)) = Some wechaty.
Proof.
  cbn zeta.
  assert (Closure.scopes (env (snd (Closure.wechatifyRoomInvitation wechaty s)))
            !! length (Closure.scopes (env s)) = Some wechaty) as H0.
  { cbn. rewrite lookup_app_r by lia. rewrite Nat.sub_diag. reflexivity. }
  split; [exact H0|].
  destruct (perform_all_scopes calls (snd (Closure.wechatifyRoomInvitation wechaty s)))
    as [new ->].
  apply lookup_app_l_Some. exact H0.
Qed.

Lemma read_variable_run scope (wechaty : W) (s : World (Closure.Realm Env W)) :
  Closure.scopes (env s) !! scope = Some wechaty →
  Closure.read_variable scope s = (Resolved wechaty, s).
Proof. intros Hs. unfold Closure.read_variable. rewrite Hs. reflexivity. Qed.

Lemma closure_load_class (C : Closure.ClassRef) i (s : World (Closure.Realm Env W)) this s' :
  Closure.load C i s = (Resolved this, s') →
  Closure.class_of this = C ∧ Closure.id this = i.
Proof.
  unfold Closure.load, Closure.constructor, log, bind at 1 2, emit, ret. cbn.
  destruct C as [|scope]; cbn; [discriminate|].
  unfold bind, Closure.read_variable. cbn.
  destruct (Closure.scopes (env s) !! scope) as [wechaty|]; cbn; [|discriminate].
  destruct (wechaty_puppet wechaty); cbn; [|discriminate].
  intros [= <- <-]. split; reflexivity.
Qed.

(** C9: the class a call [wechatifyRoomInvitation (wechaty)] returns reads
    [wechaty] from the environment record of that call.  Whatever calls
    follow (further specialisations, [load], [fromJSON], [accept], the
    reads, on any class and any handle), none of them assigns to that
    record: the static getter of the class and the getter of each of its
    instances return [wechaty] right after the call and after the calls
    that follow, the getters leave the state as it is, and the handles
    [load] returns on the class are instances of it. *)
Theorem binding_never_reassigned (wechaty : W) (calls : list (Closure.Call W))
    (s : World (Closure.Realm Env W)) :
  ∃ C s0,
    Closure.wechatifyRoomInvitation wechaty s = (Resolved C, s0)
    ∧ Closure.static_wechaty C s0 = (Resolved wechaty, s0)
    ∧ Closure.static_wechaty C (Closure.perform_all RoomInvitation_of calls s0)
      = (Resolved wechaty, Closure.perform_all RoomInvitation_of calls s0)
    ∧ (∀ this,
         Closure.class_of this = C →
         Closure.get_wechaty this s0 = (Resolved wechaty, s0)
         ∧ Closure.get_wechaty this (Closure.perform_all RoomInvitation_of calls s0)
           = (Resolved wechaty, Closure.perform_all RoomInvitation_of calls s0))
    ∧ (∀ i s1 this s2,
         Closure.load C i s1 = (Resolved this, s2) → Closure.class_of this = C).
Proof.
  eexists _, _. split; [reflexivity|].
  destruct (variable_after_calls wechaty calls s) as [H0 H1].
  split; [exact (read_variable_run _ _ _ H0)|].
  split; [exact (read_variable_run _ _ _ H1)|]. split.
  - intros this HC. unfold Closure.get_wechaty. rewrite HC.
    split; [exact (read_variable_run _ _ _ H0)|exact (read_variable_run _ _ _ H1)].
  - intros i s1 this s2 Hl. exact (proj1 (closure_load_class _ i s1 this s2 Hl)).
Qed.

End FactoryProperties.

(** * The host codec reads back what it writes

    [JSON.parse] after [JSON.stringify] is the identity on payloads: for
    every JSON value, reading its printed text with the fuel [JSON.parse]
    gives itself returns the value. *)

Local Open Scope string_scope.

Module JSONFacts.
Import JSON.

Lemma append_cons (c : ascii) (s t : string) : String c s ++ t = String c (s ++ t).
Proof. reflexivity. Qed.

Lemma append_nil_r (s : string) : s ++ EmptyString = s.
Proof. induction s as [|c s IH]; [|rewrite append_cons, IH]; reflexivity. Qed.

Lemma append_assoc (a b c : string) : (a ++ b) ++ c = a ++ (b ++ c).
Proof. induction a as [|x a IH]; [|rewrite !append_cons, IH]; reflexivity. Qed.

Lemma length_append (a b : string) :
  String.length (a ++ b) = (String.length a + String.length b)%nat.
Proof. induction a as [|x a IH]; [|rewrite append_cons; cbn; rewrite IH]; reflexivity. Qed.

(** One escaped character reads back as the character. *)
Lemma parse_escape_char (c : ascii) (rest : string) :
  parse_chars (escape_char c ++ rest) =
    '(body, r) ← parse_chars rest; Some (String c body, r).
Proof.
  destruct c as [[] [] [] [] [] [] [] []]; reflexivity.
Qed.

Lemma parse_escape (s rest : string) :
  parse_chars (escape s ++ String quote rest) = Some (s, rest).
Proof.
  induction s as [|c s IH]; [reflexivity|].
  cbn [escape]. rewrite append_assoc, parse_escape_char, IH. reflexivity.
Qed.

(** Where a number may end: at the end of the text or before a character
    that continues neither its digits nor a fraction or exponent. *)
Definition number_ends (rest : string) : bool :=
  match rest with
  | EmptyString => true
  | String c _ => negb (is_digit c) && negb (starts_fraction rest)
  end.

Lemma span_digits_uint (d : Decimal.uint) (rest : string) :
  number_ends rest = true →
  span_digits (NilEmpty.string_of_uint d ++ rest) = (NilEmpty.string_of_uint d, rest).
Proof.
  intros Hend.
  induction d as [|d IH|d IH|d IH|d IH|d IH|d IH|d IH|d IH|d IH|d IH];
    cbn [NilEmpty.string_of_uint];
    try (rewrite append_cons; cbn [span_digits]; rewrite IH; reflexivity).
  change (span_digits rest = (EmptyString, rest)).
  destruct rest as [|c rest]; [reflexivity|].
  cbn [number_ends span_digits] in Hend |- *.
  destruct (is_digit c); [discriminate|reflexivity].
Qed.

Lemma string_of_uint_head (d : Decimal.uint) :
  d ≠ Decimal.Nil →
  ∃ c s, NilEmpty.string_of_uint d = String c s ∧ Ascii.eqb c "-" = false.
Proof.
  intros Hd. destruct d; [congruence|..]; eexists _, _; split; reflexivity.
Qed.

Lemma parse_digits_uint (d : Decimal.uint) (rest : string) :
  d ≠ Decimal.Nil →
  number_ends rest = true →
  parse_digits (NilEmpty.string_of_uint d ++ rest) = Some (Z.of_uint d, rest).
Proof.
  intros Hd Hend. unfold parse_digits. rewrite span_digits_uint by exact Hend.
  assert (starts_fraction rest = false) as ->.
  { destruct rest as [|c rest]; [reflexivity|]. cbn [number_ends] in Hend.
    destruct (starts_fraction (String c rest)); [|reflexivity].
    rewrite andb_false_r in Hend. discriminate. }
  destruct (string_of_uint_head d Hd) as (c & s & Hs & _).
  rewrite Hs. rewrite <- Hs. unfold NilZero.uint_of_string. rewrite Hs, <- Hs.
  rewrite NilEmpty.usu. reflexivity.
Qed.

Lemma print_number_spec (n : Z) :
  ∃ d, d ≠ Decimal.Nil
       ∧ ((print_number n = NilEmpty.string_of_uint d ∧ n = Z.of_uint d)
          ∨ (print_number n = String "-" (NilEmpty.string_of_uint d) ∧ n = (- Z.of_uint d)%Z)).
Proof.
  destruct n as [|p|p].
  - exists (Decimal.D0 Decimal.Nil). split; [discriminate|]. left. split; reflexivity.
  - exists (Pos.to_uint p). split; [apply DecimalPos.Unsigned.to_uint_nonnil|]. left. split.
    + unfold print_number. cbn. pose proof (DecimalPos.Unsigned.to_uint_nonnil p).
      destruct (Pos.to_uint p); [congruence|reflexivity..].
    + unfold Z.of_uint. rewrite DecimalPos.Unsigned.of_to. reflexivity.
  - exists (Pos.to_uint p). split; [apply DecimalPos.Unsigned.to_uint_nonnil|]. right. split.
    + unfold print_number. cbn. pose proof (DecimalPos.Unsigned.to_uint_nonnil p).
      destruct (Pos.to_uint p); [congruence|reflexivity..].
    + unfold Z.of_uint. rewrite DecimalPos.Unsigned.of_to. reflexivity.
Qed.

Lemma parse_print_number (n : Z) (rest : string) :
  number_ends rest = true →
  parse_number (print_number n ++ rest) = Some (n, rest).
Proof.
  intros Hend. destruct (print_number_spec n) as (d & Hd & [[-> ->] | [-> ->]]).
  - destruct (string_of_uint_head d Hd) as (c & s & Hs & Hc).
    unfold parse_number. rewrite Hs, append_cons, Hc, <- append_cons, <- Hs.
    apply parse_digits_uint; assumption.
  - rewrite append_cons. unfold parse_number.
    change (Ascii.eqb "-" "-") with true. cbn iota.
    rewrite parse_digits_uint by assumption. reflexivity.
Qed.

(** The first character of a printed number. *)
Definition number_head (c : ascii) : bool := is_digit c || Ascii.eqb c "-".

Lemma print_number_head (n : Z) :
  ∃ c s, print_number n = String c s ∧ number_head c = true.
Proof.
  destruct (print_number_spec n) as (d & Hd & [[-> _] | [-> _]]).
  - destruct d; [congruence|..]; eexists _, _; split; reflexivity.
  - eexists _, _; split; reflexivity.
Qed.

Lemma parse_value_number (fuel : nat) (c : ascii) (s : string) :
  number_head c = true →
  parse_value (S fuel) (String c s) =
    '(n, r) ← parse_number (String c s); Some (JNumber n, r).
Proof.
  destruct c as [[] [] [] [] [] [] [] []]; intros Hc; try discriminate Hc; reflexivity.
Qed.

(** A printed value starts with a character that is neither whitespace nor
    a closing bracket. *)
Definition value_head (c : ascii) : bool :=
  negb (is_whitespace c) && negb (Ascii.eqb c "]") && negb (Ascii.eqb c "}").

Lemma number_head_value_head (c : ascii) : number_head c = true → value_head c = true.
Proof.
  destruct c as [[] [] [] [] [] [] [] []]; intros Hc; try discriminate Hc; reflexivity.
Qed.

Lemma print_head (v : json) : ∃ c s, print v = String c s ∧ value_head c = true.
Proof.
  destruct v as [|[]|n|str|l|m]; try (eexists _, _; split; reflexivity).
  destruct (print_number_head n) as (c & s & Hs & Hc).
  exists c, s. split; [exact Hs|]. apply number_head_value_head, Hc.
Qed.

Lemma skip_whitespace_head (c : ascii) (s : string) :
  value_head c = true → skip_whitespace (String c s) = String c s.
Proof.
  intros Hc. cbn [skip_whitespace]. unfold value_head in Hc.
  destruct (is_whitespace c); [discriminate|reflexivity].
Qed.

(** Fuel that suffices to read a printed value back. *)
Fixpoint size (v : json) : nat :=
  match v with
  | JArray elements => S (list_sum (map (fun v => S (size v)) elements))
  | JObject members => S (list_sum (map (fun kv => S (size (snd kv))) members))
  | _ => 1
  end.

Definition print_member (kv : string * json) : string :=
  print_string (fst kv) ++ ":" ++ print (snd kv).

Definition value_reads (fuel : nat) : Prop :=
  ∀ v rest, (size v ≤ fuel)%nat → number_ends rest = true →
    parse_value fuel (print v ++ rest) = Some (v, rest).

Definition elements_read (fuel : nat) : Prop :=
  ∀ v vs rest, (list_sum (map (fun v => S (size v)) (v :: vs)) ≤ fuel)%nat →
    parse_elements fuel (join_with_commas (map print (v :: vs)) ++ String "]" rest)
    = Some (v :: vs, rest).

Definition members_read (fuel : nat) : Prop :=
  ∀ kv kvs rest, (list_sum (map (fun kv => S (size (snd kv))) (kv :: kvs)) ≤ fuel)%nat →
    parse_members fuel (join_with_commas (map print_member (kv :: kvs)) ++ String "}" rest)
    = Some (kv :: kvs, rest).

Lemma print_array_cons (v : json) (vs : list json) (rest : string) :
  print (JArray (v :: vs)) ++ rest
  = String "[" (join_with_commas (map print (v :: vs)) ++ String "]" rest).
Proof.
  cbn [print]. rewrite !append_assoc. reflexivity.
Qed.

Lemma print_object_cons (kv : string * json) (kvs : list (string * json)) (rest : string) :
  print (JObject (kv :: kvs)) ++ rest
  = String "{" (join_with_commas (map print_member (kv :: kvs)) ++ String "}" rest).
Proof.
  cbn [print]. rewrite !append_assoc. reflexivity.
Qed.

Lemma print_member_append (k : string) (v : json) (rest : string) :
  print_member (k, v) ++ rest
  = String quote (escape k ++ String quote (String ":" (print v ++ rest))).
Proof.
  unfold print_member, print_string. cbn [fst snd].
  rewrite !append_cons, !append_assoc. reflexivity.
Qed.

Lemma join_cons_cons (p q : string) (ps : list string) (rest : string) :
  join_with_commas (p :: q :: ps) ++ rest
  = p ++ String "," (join_with_commas (q :: ps) ++ rest).
Proof. cbn [join_with_commas]. rewrite !append_assoc. reflexivity. Qed.

Lemma number_ends_delimiter (c : ascii) (rest : string) :
  c = ","%char ∨ c = "]"%char ∨ c = "}"%char → number_ends (String c rest) = true.
Proof. intros [-> | [-> | ->]]; reflexivity. Qed.

Lemma parse_value_string (fuel : nat) (rest : string) :
  parse_value (S fuel) (String quote rest)
  = '(str, r) ← parse_chars rest; Some (JString str, r).
Proof. reflexivity. Qed.

Lemma parse_value_array (fuel : nat) (rest : string) :
  parse_value (S fuel) (String "[" rest) =
    match skip_whitespace rest with
    | String c' r =>
        if Ascii.eqb c' "]" then Some (JArray [], r)
        else '(l, r') ← parse_elements fuel rest; Some (JArray l, r')
    | EmptyString => None
    end.
Proof. reflexivity. Qed.

Lemma parse_value_object (fuel : nat) (rest : string) :
  parse_value (S fuel) (String "{" rest) =
    match skip_whitespace rest with
    | String c' r =>
        if Ascii.eqb c' "}" then Some (JObject [], r)
        else '(l, r') ← parse_members fuel rest; Some (JObject l, r')
    | EmptyString => None
    end.
Proof. reflexivity. Qed.

Lemma parse_elements_step (fuel : nat) (s : string) :
  parse_elements (S fuel) s =
    '(v, r) ← parse_value fuel s;
    match skip_whitespace r with
    | String c r' =>
        if Ascii.eqb c "," then
          '(vs, r'') ← parse_elements fuel r'; Some (v :: vs, r'')
        else if Ascii.eqb c "]" then Some ([v], r')
        else None
    | EmptyString => None
    end.
Proof. reflexivity. Qed.

Lemma parse_members_step (fuel : nat) (rest : string) :
  parse_members (S fuel) (String quote rest) =
    '(key, r) ← parse_chars rest;
    match skip_whitespace r with
    | String colon r1 =>
        if Ascii.eqb colon ":" then
          '(v, r2) ← parse_value fuel r1;
          match skip_whitespace r2 with
          | String c r3 =>
              if Ascii.eqb c "," then
                '(kvs, r4) ← parse_members fuel r3; Some ((key, v) :: kvs, r4)
              else if Ascii.eqb c "}" then Some ([(key, v)], r3)
              else None
          | EmptyString => None
          end
        else None
    | EmptyString => None
    end.
Proof. reflexivity. Qed.

Lemma value_head_not_closing (c : ascii) :
  value_head c = true → Ascii.eqb c "]" = false ∧ Ascii.eqb c "}" = false.
Proof.
  unfold value_head. destruct (Ascii.eqb c "]"), (Ascii.eqb c "}"), (is_whitespace c);
    cbn; intros H; try discriminate H; split; reflexivity.
Qed.

Lemma reads_step (fuel : nat) :
  value_reads fuel ∧ elements_read fuel ∧ members_read fuel →
  value_reads (S fuel) ∧ elements_read (S fuel) ∧ members_read (S fuel).
Proof.
  intros (IHv & IHe & IHm). split; [|split].
  - intros v rest Hsize Hend. destruct v as [|[]|n|str|l|m]; try reflexivity.
    + destruct (print_number_head n) as (c & s & Hs & Hc).
      cbn [print]. rewrite Hs, append_cons, (parse_value_number fuel c _ Hc).
      rewrite <- append_cons, <- Hs, (parse_print_number n rest Hend). reflexivity.
    + cbn [print]. unfold print_string. rewrite append_cons, append_assoc.
      rewrite parse_value_string.
      change (String quote EmptyString ++ rest) with (String quote rest).
      rewrite parse_escape. reflexivity.
    + destruct l as [|v vs]; [reflexivity|].
      rewrite print_array_cons, parse_value_array.
      destruct (print_head v) as (c & s & Hs & Hc).
      assert (∃ t, join_with_commas (map print (v :: vs)) ++ String "]" rest = String c t)
        as [t Ht].
      { destruct vs as [|v' vs].
        - cbn [map join_with_commas]. rewrite Hs, append_cons. eauto.
        - cbn [map]. rewrite join_cons_cons, Hs, append_cons. eauto. }
      rewrite Ht at 1. rewrite (skip_whitespace_head c t Hc).
      rewrite (proj1 (value_head_not_closing c Hc)).
      rewrite IHe; [reflexivity|]. cbn [size map list_sum fold_right] in Hsize |- *. lia.
    + destruct m as [|kv kvs]; [reflexivity|].
      rewrite print_object_cons, parse_value_object.
      assert (∃ t, join_with_commas (map print_member (kv :: kvs)) ++ String "}" rest
                   = String quote t) as [t Ht].
      { destruct kv as [k v]. destruct kvs as [|kv' kvs].
        - cbn [map join_with_commas]. rewrite print_member_append. eauto.
        - cbn [map]. rewrite join_cons_cons, print_member_append. eauto. }
      rewrite Ht at 1. rewrite (skip_whitespace_head quote t) by reflexivity.
      change (Ascii.eqb quote "}") with false. cbn iota.
      rewrite IHm; [reflexivity|]. cbn [size map list_sum fold_right] in Hsize |- *. lia.
  - intros v vs rest Hsize. cbn [map list_sum fold_right] in Hsize.
    rewrite parse_elements_step.
    destruct vs as [|v' vs].
    + cbn [map join_with_commas].
      rewrite IHv; [|lia|reflexivity]. reflexivity.
    + cbn [map]. rewrite join_cons_cons.
      rewrite IHv; [|lia|reflexivity].
      cbn [mbind option_bind].
      rewrite (skip_whitespace_head ","%char) by reflexivity.
      change (Ascii.eqb "," ",") with true. cbn iota.
      change (print v' :: map print vs) with (map print (v' :: vs)).
      rewrite IHe; [reflexivity|]. cbn [map list_sum fold_right snd] in Hsize |- *. lia.
  - intros [k v] kvs rest Hsize. cbn [map list_sum fold_right snd] in Hsize.
    destruct kvs as [|kv' kvs].
    + cbn [map join_with_commas]. rewrite print_member_append, parse_members_step.
      rewrite parse_escape. cbn [mbind option_bind].
      rewrite (skip_whitespace_head ":"%char) by reflexivity.
      change (Ascii.eqb ":" ":") with true. cbn iota.
      rewrite IHv; [|lia|reflexivity]. reflexivity.
    + cbn [map]. rewrite join_cons_cons, print_member_append, parse_members_step.
      rewrite parse_escape. cbn [mbind option_bind].
      rewrite (skip_whitespace_head ":"%char) by reflexivity.
      change (Ascii.eqb ":" ":") with true. cbn iota.
      rewrite IHv; [|lia|reflexivity].
      cbn [mbind option_bind].
      rewrite (skip_whitespace_head ","%char) by reflexivity.
      change (Ascii.eqb "," ",") with true. cbn iota.
      change (print_member kv' :: map print_member kvs)
        with (map print_member (kv' :: kvs)).
      rewrite IHm; [reflexivity|]. cbn [map list_sum fold_right snd] in Hsize |- *. lia.
Qed.

Lemma size_positive (v : json) : (1 ≤ size v)%nat.
Proof. destruct v; cbn [size]; lia. Qed.

Lemma reads_all (fuel : nat) : value_reads fuel ∧ elements_read fuel ∧ members_read fuel.
Proof.
  induction fuel as [|fuel IH]; [|exact (reads_step fuel IH)].
  split; [|split].
  - intros v rest Hsize. pose proof (size_positive v). lia.
  - intros v vs rest Hsize. cbn [map list_sum fold_right] in Hsize. lia.
  - intros kv kvs rest Hsize. cbn [map list_sum fold_right] in Hsize. lia.
Qed.

(** The fuel [parse] gives itself covers every printed value. *)
Definition bounded (v : json) : Prop := (size v ≤ 2 * String.length (print v) + 1)%nat.

Lemma join_cons (p q : string) (ps : list string) :
  join_with_commas (p :: q :: ps) = p ++ "," ++ join_with_commas (q :: ps).
Proof. reflexivity. Qed.

Lemma weight_elements (l : list json) :
  (∀ v, In v l → bounded v) →
  (list_sum (map (fun v => S (size v)) l)
   ≤ 2 * String.length (join_with_commas (map print l)) + 2)%nat.
Proof.
  induction l as [|v vs IH]; intros Hall; [cbn; lia|].
  assert (bounded v) as Hv by (apply Hall; left; reflexivity).
  assert (∀ v', In v' vs → bounded v') as Hvs by (intros v' Hin; apply Hall; right; exact Hin).
  specialize (IH Hvs). unfold bounded in Hv.
  destruct vs as [|v' vs].
  - cbn [map list_sum fold_right join_with_commas]. lia.
  - cbn [map] in IH |- *. cbn [list_sum fold_right] in IH |- *.
    rewrite join_cons. rewrite !length_append.
    cbn [String.length] in IH |- *. lia.
Qed.

Lemma weight_members (m : list (string * json)) :
  (∀ kv, In kv m → bounded (snd kv)) →
  (list_sum (map (fun kv => S (size (snd kv))) m)
   ≤ 2 * String.length (join_with_commas (map print_member m)) + 2)%nat.
Proof.
  induction m as [|kv kvs IH]; intros Hall; [cbn; lia|].
  assert (bounded (snd kv)) as Hv by (apply Hall; left; reflexivity).
  assert (∀ kv', In kv' kvs → bounded (snd kv')) as Hvs
    by (intros kv' Hin; apply Hall; right; exact Hin).
  specialize (IH Hvs). unfold bounded in Hv.
  assert (String.length (print (snd kv)) ≤ String.length (print_member kv))%nat as Hlen.
  { unfold print_member. rewrite !length_append. lia. }
  destruct kvs as [|kv' kvs].
  - cbn [map list_sum fold_right join_with_commas]. lia.
  - cbn [map] in IH |- *. cbn [list_sum fold_right] in IH |- *.
    rewrite join_cons. rewrite !length_append.
    cbn [String.length] in IH |- *. lia.
Qed.

Lemma element_weight (v : json) (l : list json) :
  In v l → (S (size v) ≤ list_sum (map (fun v => S (size v)) l))%nat.
Proof.
  induction l as [|v' l IH]; [intros []|].
  unfold list_sum in *. cbn [map fold_right].
  intros [-> | Hin]; [lia|]. specialize (IH Hin). lia.
Qed.

Lemma member_weight (kv : string * json) (m : list (string * json)) :
  In kv m → (S (size (snd kv)) ≤ list_sum (map (fun kv => S (size (snd kv))) m))%nat.
Proof.
  induction m as [|kv' m IH]; [intros []|].
  unfold list_sum in *. cbn [map fold_right].
  intros [-> | Hin]; [lia|]. specialize (IH Hin). lia.
Qed.

Lemma bounded_upto (n : nat) : ∀ v, (size v ≤ n)%nat → bounded v.
Proof.
  induction n as [|n IH]; intros v Hn; [pose proof (size_positive v); lia|].
  destruct v as [| | | |l|m]; try (unfold bounded; cbn [size]; lia).
  - assert (∀ v, In v l → bounded v) as Hall.
    { intros v Hin. apply IH. pose proof (element_weight v l Hin). cbn [size] in Hn. lia. }
    pose proof (weight_elements l Hall) as Hw.
    unfold bounded. cbn [size print]. rewrite !length_append. cbn [String.length]. lia.
  - assert (∀ kv, In kv m → bounded (snd kv)) as Hall.
    { intros kv Hin. apply IH. pose proof (member_weight kv m Hin). cbn [size] in Hn. lia. }
    pose proof (weight_members m Hall) as Hw.
    unfold bounded. cbn [size print]. rewrite !length_append. cbn [String.length].
    fold print_member. lia.
Qed.

(** Reading a printed value gives the value back. *)
Lemma parse_print (v : json) : parse (print v) = Some v.
Proof.
  unfold parse.
  pose proof (bounded_upto (size v) v (le_n _)) as Hb. unfold bounded in Hb.
  destruct (reads_all (2 * String.length (print v) + 2)) as (Hv & _ & _).
  specialize (Hv v EmptyString ltac:(lia) eq_refl).
  rewrite append_nil_r in Hv. rewrite Hv. reflexivity.
Qed.

End JSONFacts.

Lemma as_strings_map (l : list string) : as_strings (map JSON.JString l) = Some l.
Proof. induction l as [|s l IH]; [reflexivity|]. cbn. rewrite IH. reflexivity. Qed.

Lemma payload_of_to_json (p : RoomInvitationPayload) :
  payload_of_json (payload_to_json p) = Some p.
Proof.
  destruct p as [i t inv n l ts].
  destruct t, n, l; cbn; rewrite ?as_strings_map; reflexivity.
Qed.

(** The host codec reads back every payload it writes. *)
Lemma parse_stringify_payload (p : RoomInvitationPayload) :
  parse_payload (stringify_payload p) = Resolved p.
Proof.
  unfold parse_payload, stringify_payload.
  rewrite JSONFacts.parse_print, payload_of_to_json. reflexivity.
Qed.

Local Open Scope list_scope.

(** * Concrete runs in the in-memory world *)

Definition memory_stored (i : string) (p : RoomInvitationPayload) (e : MemoryEnv) : Prop :=
  store e !! i = Some p.

#[export] Instance memory_store_stable : StableStore memory_puppet memory_stored.
Proof.
  split.
  - intros i p e Hs. unfold memory_stored in *. cbn.
    split; [rewrite Hs; reflexivity|exact Hs].
  - intros i p e _. unfold memory_stored. cbn. apply lookup_insert_eq.
Qed.

Definition scenario_invitation : RoomInvitation Bot :=
  {| class_of := WechatifiedRoomInvitation BotWithPuppet; id := "i1" |}.

(** The scenario with an inviter whose data never becomes ready. *)
Definition contact_unavailable : Exn := ErrorObject PlainError "contact payload unavailable".

Definition unready_env (done : list string) : MemoryEnv :=
  {| store := {["i1" := scenario_payload]}; accept_error := None; accepted := done;
     unready := {["c1" := contact_unavailable]}; clock := 1234567904500 |}.

Definition unready_world : World MemoryEnv := {| env := unready_env []; trace := [] |}.

(** An invitation dated 1.5 seconds after the host clock. *)
Definition early_payload : RoomInvitationPayload :=
  {| payload_id := "i2"; payload_topic := None; payload_inviterId := "c1";
     payload_memberCount := None; payload_memberIdList := None;
     payload_timestamp := 200000000000 |}.

Definition early_invitation : RoomInvitation Bot :=
  {| class_of := WechatifiedRoomInvitation BotWithPuppet; id := "i2" |}.

Definition early_world : World MemoryEnv :=
  {| env := {| store := {["i2" := early_payload]}; accept_error := None; accepted := [];
               unready := ∅; clock := 199999998500 |};
     trace := [] |}.

Definition later (s : World MemoryEnv) (now : Z) : World MemoryEnv :=
  {| env := {| store := store (env s); accept_error := accept_error (env s);
               accepted := accepted (env s); unready := unready (env s); clock := now |};
     trace := trace s |}.

Lemma bot_has_puppet : wechaty_puppet BotWithPuppet = Some memory_puppet.
Proof. reflexivity. Defined.

(** In the in-memory world the round trip holds for every stored payload:
    the store is stable, its write-through is always accepted, and the codec
    reads back every payload. *)
Lemma memory_round_trip (this : RoomInvitation Bot) (s : World MemoryEnv)
    (p : RoomInvitationPayload) :
  class_of this = WechatifiedRoomInvitation BotWithPuppet →
  store (env s) !! id this = Some p →
  ∃ text s1 that s2,
    toJSON this s = (Resolved text, s1)
    ∧ fromJSON (WechatifiedRoomInvitation BotWithPuppet) (inl text) s1 = (Resolved that, s2)
    ∧ id that = payload_id p
    ∧ store (env s2) !! id that = Some p
    ∧ fst (topic that s2) = Resolved (js_or_default truthy_string (payload_topic p) EmptyString)
    ∧ fst (memberCount that s2)
      = Resolved (js_or_default truthy_number (payload_memberCount p) 0%Z)
    ∧ fst (date that s2) = Resolved (seconds_or_milliseconds (payload_timestamp p))
    ∧ fst (inviter that s2) = Resolved (Contact_load BotWithPuppet (payload_inviterId p)).
Proof.
  intros HC Hp.
  assert (memory_stored (id this) p (env s)) as Hstored by exact Hp.
  assert (memory_stored (payload_id p) p
            (snd (memory_write (payload_id p) p (env s)))) as Hnew
    by apply lookup_insert_eq.
  eexists _, _, _, _.
  split; [exact (toJSON_when_stored memory_puppet memory_stored BotWithPuppet this s p
                   HC bot_has_puppet Hstored)|].
  split; [apply (fromJSON_when_accepted (Host0 := memory_host) BotWithPuppet memory_puppet);
          [exact bot_has_puppet|reflexivity|exact (parse_stringify_payload p)|reflexivity]|].
  split; [reflexivity|]. split; [exact Hnew|].
  match goal with
  | |- context [topic ?that ?s2] =>
      destruct (reads_when_stored (Host0 := memory_host) memory_puppet memory_stored
                  BotWithPuppet that s2 p eq_refl bot_has_puppet Hnew)
        as (Ht & Hn & Hd & Hi & _)
  end.
  repeat split; assumption.
Qed.

Lemma accept_swallows_ready_failure_witness :
  fst (accept scenario_invitation unready_world) = Resolved tt
  ∧ accepted (env (snd (accept scenario_invitation unready_world))) = ["i1"]
  ∧ last (trace (snd (accept scenario_invitation unready_world)))
    = Some (Log LogWarn "RoomInvitation" "accept() inviter(%s) is not ready because of %s"
              [ArgContact "c1"; ArgString "contact payload unavailable"]).
Proof.
  rewrite (accept_swallows_ready_failure BotWithPuppet memory_puppet scenario_invitation
             eq_refl bot_has_puppet unready_world (unready_env ["i1"]) scenario_payload
             (unready_env ["i1"]) scenario_payload (unready_env ["i1"])
             contact_unavailable (unready_env ["i1"]));
    [repeat split | reflexivity ..].
Defined.


Lemma fromJSON_order_witness :
  fst (fromJSON (WechatifiedRoomInvitation BotWithPuppet) (inl "not json") scenario_world)
    = Rejected (ErrorObject SyntaxError "Unexpected token in JSON")
  ∧ puppet_calls
      (trace (snd (fromJSON (WechatifiedRoomInvitation BotWithPuppet) (inl "not json")
                     scenario_world))) = []
  ∧ fromJSON (WechatifiedRoomInvitation BotWithPuppet) (inr early_payload) scenario_world
    = (Resolved early_invitation,
       {| env := snd (memory_write "i2" early_payload scenario_env);
          trace := [fromJSON_log (inr early_payload); write_event early_payload;
                    constructor_log "i2"] |}).
Proof.
  destruct (@fromJSON_order MemoryEnv Bot _ _) as [Hmalformed Hwritten].
  destruct (Hmalformed (WechatifiedRoomInvitation BotWithPuppet) "not json"
              (ErrorObject SyntaxError "Unexpected token in JSON") scenario_world eq_refl)
    as [Hrun Hcalls].
  split; [rewrite Hrun; reflexivity|]. split; [exact Hcalls|].
  exact (Hwritten BotWithPuppet memory_puppet (inr early_payload) early_payload
           scenario_world bot_has_puppet eq_refl eq_refl).
Defined.

Lemma scenario_reads_witness :
  fst (topic scenario_invitation scenario_world) = Resolved "T"%string
  ∧ fst (memberCount scenario_invitation scenario_world) = Resolved 3%Z
  ∧ memberList scenario_invitation scenario_world =
      (Resolved [Contact_load BotWithPuppet "c1"; Contact_load BotWithPuppet "c2";
                 Contact_load BotWithPuppet "c3"],
       {| env := scenario_env;
          trace := [memberList_log; fetch_event scenario_invitation;
                    ready_event "c1" (Resolved tt); ready_event "c2" (Resolved tt);
                    ready_event "c3" (Resolved tt)] |}).
Proof.
  destruct (scenario_reads BotWithPuppet memory_puppet scenario_invitation eq_refl
              bot_has_puppet scenario_world scenario_env eq_refl) as (Ht & Hn & Hl & _).
  split; [exact Ht|]. split; [exact Hn|].
  exact (Hl scenario_env scenario_env scenario_env eq_refl eq_refl eq_refl).
Defined.

Lemma load_preserves_id_witness :
  ∃ this s',
    load (wechatifyRoomInvitation BotWithPuppet) "i1" scenario_world = (Resolved this, s')
    ∧ id this = "i1"
    ∧ class_of this = wechatifyRoomInvitation BotWithPuppet
    ∧ env s' = env scenario_world
    ∧ puppet_calls (trace s') = puppet_calls (trace scenario_world).
Proof.
  apply (load_preserves_id BotWithPuppet "i1" scenario_world).
  exists memory_puppet. reflexivity.
Defined.

(** C6 as stated fails: for the invitation dated 1.5 seconds after the host
    clock (a valid date, 200000000000 ms), [age()] is -2, and the difference
    of -1500 ms truncated to whole seconds is -1. *)
Lemma age_truncation_counterexample :
  timestampToDate (payload_timestamp early_payload) = ValidDate 200000000000
  ∧ Date_now (env early_world) = 199999998500%Z
  ∧ fst (age early_invitation early_world) = Resolved (Finite (-2))
  ∧ Z.quot (199999998500 - 200000000000) 1000 = (-1)%Z
  ∧ fst (age early_invitation early_world)
    ≠ Resolved (Finite (Z.quot (199999998500 - 200000000000) 1000)).
Proof.
  split; [reflexivity|]. split; [reflexivity|]. split; [reflexivity|].
  split; [reflexivity|]. intros H. vm_compute in H. discriminate H.
Qed.

Lemma age_floor_witness :
  ∃ a : Z,
    fst (age early_invitation early_world) = Resolved (Finite a)
    ∧ a = ((199999998500 - 200000000000) / 1000)%Z
    ∧ (1000 * a ≤ 199999998500 - 200000000000 < 1000 * a + 1000)%Z
    ∧ ((200000000000 ≤ 199999998500)%Z →
         a = Z.quot (199999998500 - 200000000000) 1000)
    ∧ ((199999998500 < 200000000000)%Z →
       ((199999998500 - 200000000000) mod 1000 ≠ 0)%Z →
         a = (Z.quot (199999998500 - 200000000000) 1000 - 1)%Z).
Proof.
  exact (proj1 (age_floor BotWithPuppet memory_puppet early_invitation eq_refl bot_has_puppet
                  early_world early_payload (env early_world) eq_refl)
           200000000000%Z eq_refl).
Defined.

(** An invitation whose timestamp, 9e15 ms, lies beyond the range of
    [Date]: the date derived from it is Invalid Date. *)
Definition undated_payload : RoomInvitationPayload :=
  {| payload_id := "i3"; payload_topic := Some "T"; payload_inviterId := "c1";
     payload_memberCount := Some 3; payload_memberIdList := Some ["c1"; "c2"; "c3"];
     payload_timestamp := 9000000000000000 |}.

Definition undated_invitation : RoomInvitation Bot :=
  {| class_of := WechatifiedRoomInvitation BotWithPuppet; id := "i3" |}.

Definition undated_world : World MemoryEnv :=
  {| env := {| store := {["i3" := undated_payload]}; accept_error := None; accepted := [];
               unready := ∅; clock := 1234567904500 |};
     trace := [] |}.

(** C7 as stated fails: the stored payload is the same at both calls and the
    host clock has advanced by 1.5 seconds when the second is made, after
    the first has returned; both calls return [NaN], and [NaN >= NaN] is
    false. *)
Lemma age_invalid_date_counterexample :
  let s1 := undated_world in
  let s2 := later (snd (age undated_invitation s1)) 1234567906000 in
  store (env s1) !! "i3" = Some undated_payload
  ∧ store (env s2) !! "i3" = Some undated_payload
  ∧ (Date_now (env s1) ≤ Date_now (env s2))%Z
  ∧ timestampToDate (payload_timestamp undated_payload) = InvalidDate
  ∧ ∃ r1 r2 : JsNumber,
      fst (age undated_invitation s1) = Resolved r1
      ∧ fst (age undated_invitation s2) = Resolved r2
      ∧ number_ge r2 r1 = false.
Proof.
  cbn zeta. split; [reflexivity|]. split; [reflexivity|].
  split; [cbn; lia|]. split; [reflexivity|].
  exists NaN, NaN. split; [reflexivity|]. split; reflexivity.
Qed.

Lemma age_monotone_witness :
  ∃ r1 r2 : JsNumber,
    fst (age scenario_invitation scenario_world) = Resolved r1
    ∧ fst (age scenario_invitation (later scenario_world 1234567906000)) = Resolved r2
    ∧ number_ge r2 r1 = true
    ∧ ∃ a1 a2 : Z, r1 = Finite a1 ∧ r2 = Finite a2 ∧ (a1 ≤ a2)%Z.
Proof.
  assert (Date_now scenario_env
          ≤ Date_now (env (later scenario_world 1234567906000)))%Z as Hclock
    by (cbn; lia).
  destruct (age_monotone BotWithPuppet memory_puppet scenario_invitation eq_refl
              bot_has_puppet scenario_world (later scenario_world 1234567906000)
              scenario_payload scenario_env (env (later scenario_world 1234567906000))
              eq_refl eq_refl Hclock)
    as (r1 & r2 & Hr1 & Hr2 & Hge & Hvalid & _).
  exists r1, r2. split; [exact Hr1|]. split; [exact Hr2|].
  split; [apply Hge; exists 1234567890000%Z; reflexivity|].
  exact (Hvalid 1234567890000%Z eq_refl).
Defined.

(** A world whose puppet refuses to accept. *)
Definition transport_failure : Exn := ErrorObject PlainError "transport closed".

Definition refusing_world : World MemoryEnv :=
  {| env := {| store := ∅; accept_error := Some transport_failure; accepted := [];
               unready := ∅; clock := 0 |};
     trace := [] |}.

Lemma failures_surface_witness :
  fst (constructor (W := Bot) RoomInvitationBase "i1" scenario_world)
    = Rejected direct_instantiation
  ∧ fst (constructor (WechatifiedRoomInvitation BotWithoutPuppet) "i1" scenario_world)
    = Rejected no_puppet
  ∧ fst (topic scenario_invitation refusing_world)
    = Rejected (ErrorObject PlainError "no payload for this id")
  ∧ fst (accept scenario_invitation refusing_world) = Rejected transport_failure.
Proof.
  destruct (@failures_surface MemoryEnv Bot _ _) as (Hbase & Hnone & Hread & Haccept & _).
  split; [rewrite Hbase; reflexivity|].
  split; [rewrite (Hnone BotWithoutPuppet "i1" scenario_world eq_refl); reflexivity|].
  split.
  - exact (proj1 (proj2 (proj2
      (Hread BotWithPuppet memory_puppet scenario_invitation refusing_world
         (ErrorObject PlainError "no payload for this id") (env refusing_world)
         eq_refl bot_has_puppet eq_refl)))).
  - exact (proj1 (Haccept BotWithPuppet memory_puppet scenario_invitation refusing_world
                    eq_refl bot_has_puppet)
             transport_failure (env refusing_world) eq_refl).
Defined.

Lemma accessors_default_witness :
  fst (topic early_invitation early_world) = Resolved EmptyString
  ∧ fst (memberCount early_invitation early_world) = Resolved 0%Z
  ∧ fst (memberList early_invitation early_world) = Resolved [].
Proof.
  destruct (accessors_default BotWithPuppet memory_puppet early_invitation eq_refl
              bot_has_puppet early_world early_payload eq_refl) as (Ht & Hn & Hl).
  split; [exact (Ht (or_introl eq_refl))|].
  split; [exact (Hn (or_introl eq_refl))|exact (Hl eq_refl)].
Defined.

(** * Further properties of the facade *)

(** The ready-waits [Promise.all] runs for the contacts of [w] with the
    given ids: their outcomes, in order, and the state they leave. *)
Fixpoint ready_waits {Env W} `{!WechatyContext Env W} (w : W) (ids : list string) (e : Env)
  : list (Outcome unit) * Env :=
  match ids with
  | [] => ([], e)
  | i :: rest =>
      let '(r, e1) := wechaty_Contact_ready w i e in
      let '(rs, e2) := ready_waits w rest e1 in
      (r :: rs, e2)
  end.

(** The first rejection among outcomes, if any. *)
Fixpoint first_rejection {A} (rs : list (Outcome A)) : option Exn :=
  match rs with
  | [] => None
  | Rejected x :: _ => Some x
  | Resolved _ :: rest => first_rejection rest
  end.

Fixpoint ready_events (ids : list string) (rs : list (Outcome unit)) : list Event :=
  match ids, rs with
  | i :: ids', r :: rs' => ContactReady i r :: ready_events ids' rs'
  | _, _ => []
  end.

Lemma first_rejection_none (rs : list (Outcome unit)) :
  Forall (fun r => r = Resolved tt) rs ↔ first_rejection rs = None.
Proof.
  induction rs as [|r rs IH]; [split; [reflexivity|constructor]|].
  rewrite Forall_cons, IH. destruct r as [[]|x]; cbn; [tauto|].
  split; [intros [[=] _]|discriminate].
Qed.

Lemma first_rejection_some {A} (rs : list (Outcome A)) x :
  first_rejection rs = Some x → In (Rejected x) rs.
Proof.
  induction rs as [|r rs IH]; [discriminate|].
  destruct r as [a|y]; cbn.
  - intros Hx. right. exact (IH Hx).
  - intros [= ->]. left. reflexivity.
Qed.

Lemma append_inv_head (prefix a b : string) :
  (prefix ++ a = prefix ++ b)%string → a = b.
Proof.
  induction prefix as [|c prefix IH]; [intros H; exact H|].
  rewrite !JSONFacts.append_cons. intros [= H]. exact (IH H).
Qed.

Section MoreProperties.

Context {Env W : Type} `{!WechatyContext Env W} `{!Host Env}.

Implicit Types (w : W) (P : Puppet Env) (s : World Env) (e : Env)
  (this : RoomInvitation W) (p : RoomInvitationPayload) (x : Exn) (i : string).

(** X1: [toString()] prints the id after the class name, an empty id as
    the word loading; handles with different non-empty ids print
    differently. *)
Theorem toString_distinguishes (a b : RoomInvitation W) :
  (id a ≠ EmptyString → toString a = ("RoomInvitation#" ++ id a)%string)
  ∧ (id a = EmptyString → toString a = "RoomInvitation#loading"%string)
  ∧ (id a ≠ EmptyString → id b ≠ EmptyString → toString a = toString b → id a = id b).
Proof.
  assert (∀ h : RoomInvitation W,
            id h ≠ EmptyString → toString h = ("RoomInvitation#" ++ id h)%string) as Hfull.
  { intros h Hh. unfold toString. destruct (id h) as [|c rest]; [congruence|reflexivity]. }
  split; [exact (Hfull a)|]. split.
  - intros Ha. unfold toString. rewrite Ha. reflexivity.
  - intros Ha Hb Heq. rewrite (Hfull a Ha), (Hfull b Hb) in Heq.
    exact (append_inv_head _ _ _ Heq).
Qed.

Lemma ready_waits_length w (ids : list string) e :
  length (fst (ready_waits w ids e)) = length ids.
Proof.
  revert e. induction ids as [|i ids IH]; intros e; [reflexivity|].
  cbn [ready_waits]. destruct (wechaty_Contact_ready w i e) as [r e1].
  specialize (IH e1). destruct (ready_waits w ids e1) as [rs e2]. cbn in IH |- *.
  rewrite IH. reflexivity.
Qed.

(** [Promise.all] over the ready-waits of loaded contacts. *)
Lemma ready_all_run w (ids : list string) s :
  Promise_all (map (fun c => Contact_ready c) (map (Contact_load w) ids)) s =
    (match first_rejection (fst (ready_waits w ids (env s))) with
     | None => Resolved (map (fun _ => tt) ids)
     | Some x => Rejected x
     end,
     {| env := snd (ready_waits w ids (env s));
        trace := trace s ++ ready_events ids (fst (ready_waits w ids (env s))) |}).
Proof.
  revert s. induction ids as [|i ids IH]; intros s.
  - cbn. rewrite app_nil_r. destruct s; reflexivity.
  - cbn [map Promise_all ready_waits]. unfold Contact_ready at 1. cbn.
    destruct (wechaty_Contact_ready w i (env s)) as [r e1]. rewrite IH. cbn.
    destruct (ready_waits w ids e1) as [rs e2]. cbn. rewrite <- app_assoc. cbn.
    destruct r as [[]|x]; [|reflexivity].
    destruct (first_rejection rs); reflexivity.
Qed.

Section MoreBound.

Variables (w : W) (P : Puppet Env) (this : RoomInvitation W).
Hypothesis Hclass : class_of this = WechatifiedRoomInvitation w.
Hypothesis Hpuppet : wechaty_puppet w = Some P.

(** X2: [toStringAsync()] makes one fetch and logs nothing; for a non-empty
    id its result is [toString()] followed by the topic and the inviter id
    between angle brackets, an absent topic printing as nothing. *)
Theorem toStringAsync_extends_toString s p e1 :
  roomInvitationPayload P (id this) (env s) = (Resolved p, e1) →
  toStringAsync this s =
    (Resolved ("RoomInvitation#" ++ id this ++ "<"
               ++ match payload_topic p with Some t => t | None => EmptyString end
               ++ "," ++ payload_inviterId p ++ ">")%string,
     {| env := e1; trace := trace s ++ [fetch_event this] |})
  ∧ (id this ≠ EmptyString →
     fst (toStringAsync this s) =
       Resolved (toString this ++ "<"
                 ++ match payload_topic p with Some t => t | None => EmptyString end
                 ++ "," ++ payload_inviterId p ++ ">")%string).
Proof.
  intros Hp.
  assert (toStringAsync this s =
            (Resolved ("RoomInvitation#" ++ id this ++ "<"
               ++ match payload_topic p with Some t => t | None => EmptyString end
               ++ "," ++ payload_inviterId p ++ ">")%string,
             {| env := e1; trace := trace s ++ [fetch_event this] |})) as Hrun.
  { rewrite (toStringAsync_run w P this Hclass Hpuppet). unfold derived, fetch.
    rewrite Hp. cbn. rewrite app_nil_r. reflexivity. }
  split; [exact Hrun|].
  intros Hid. rewrite Hrun. cbn. f_equal. unfold toString.
  destruct (id this) as [|c rest]; [congruence|].
  cbn [js_or_default truthy_string]. rewrite !JSONFacts.append_assoc. reflexivity.
Qed.

(** Every run of [accept()]. *)
Lemma accept_world s :
  accept this s =
    match roomInvitationAccept P (id this) (env s) with
    | (Rejected x, e1) =>
        (Rejected x, {| env := e1; trace := trace s ++ [accept_log; accept_event this] |})
    | (Resolved _, e1) =>
        match roomInvitationPayload P (id this) e1 with
        | (Rejected x, e2) =>
            (Rejected x,
             {| env := e2;
                trace := trace s ++
                  [accept_log; accept_event this; inviter_log; fetch_event this] |})
        | (Resolved p1, e2) =>
            match roomInvitationPayload P (id this) e2 with
            | (Rejected x, e3) =>
                (Rejected x,
                 {| env := e3;
                    trace := trace s ++
                      [accept_log; accept_event this; inviter_log; fetch_event this;
                       fetch_event this] |})
            | (Resolved p2, e3) =>
                (Resolved tt,
                 {| env := snd (wechaty_Contact_ready w (payload_inviterId p1) e3);
                    trace := trace s ++
                      [accept_log; accept_event this; inviter_log; fetch_event this;
                       fetch_event this;
                       ready_event (payload_inviterId p1)
                         (fst (wechaty_Contact_ready w (payload_inviterId p1) e3));
                       accept_ending
                         (js_or_default truthy_string
                            (js_or truthy_string (payload_topic p2) (payload_topic p2))
                            EmptyString)
                         (payload_inviterId p1)
                         (fst (wechaty_Contact_ready w (payload_inviterId p1) e3))] |})
            end
        end
    end.
Proof.
  destruct (roomInvitationAccept P (id this) (env s)) as [[[]|x] e1] eqn:Ha.
  2:{ unfold accept, log, bind at 1 2 3, emit. cbn.
      rewrite (get_wechaty_run _ _ _ Hclass), (accept_call_run _ _ _ _ Hpuppet). cbn.
      rewrite Ha. cbn. unfold step. cbn. rewrite <- app_assoc. reflexivity. }
  destruct (roomInvitationPayload P (id this) e1) as [[p1|x] e2] eqn:H1.
  2:{ unfold accept, log, bind at 1 2 3, emit. cbn.
      rewrite (get_wechaty_run _ _ _ Hclass), (accept_call_run _ _ _ _ Hpuppet). cbn.
      rewrite Ha. cbn.
      unfold bind at 1. rewrite (inviter_run w P this Hclass Hpuppet).
      unfold derived, fetch. cbn. rewrite H1. cbn.
      unfold step. cbn. rewrite <- !app_assoc. reflexivity. }
  destruct (roomInvitationPayload P (id this) e2) as [[p2|x] e3] eqn:H2.
  2:{ unfold accept, log, bind at 1 2 3, emit. cbn.
      rewrite (get_wechaty_run _ _ _ Hclass), (accept_call_run _ _ _ _ Hpuppet). cbn.
      rewrite Ha. cbn.
      unfold bind at 1. rewrite (inviter_run w P this Hclass Hpuppet).
      unfold derived, fetch. cbn. rewrite H1. cbn.
      unfold bind at 1. rewrite (topic_run w P this Hclass Hpuppet).
      unfold derived, fetch. cbn. rewrite H2. cbn.
      unfold step. cbn. rewrite <- !app_assoc. reflexivity. }
  exact (accept_run w P this Hclass Hpuppet s e1 p1 e2 p2 e3 _ _ Ha H1 H2
           (surjective_pairing _)).
Qed.

(** X3: [accept()] resolves exactly when the puppet's acceptance and the two
    payload fetches after it resolve; whether the inviter then becomes ready
    plays no part. *)
Theorem accept_resolves_iff s :
  fst (accept this s) = Resolved tt
  ↔ ∃ e1 p1 e2 p2 e3,
      roomInvitationAccept P (id this) (env s) = (Resolved tt, e1)
      ∧ roomInvitationPayload P (id this) e1 = (Resolved p1, e2)
      ∧ roomInvitationPayload P (id this) e2 = (Resolved p2, e3).
Proof.
  rewrite accept_world.
  destruct (roomInvitationAccept P (id this) (env s)) as [[[]|x] e1].
  2:{ split; [discriminate|]. intros (? & ? & ? & ? & ? & [=] & _). }
  destruct (roomInvitationPayload P (id this) e1) as [[p1|x] e2] eqn:H1.
  2:{ split; [discriminate|]. intros (? & ? & ? & ? & ? & [= <-] & H & _).
      rewrite H1 in H. discriminate H. }
  destruct (roomInvitationPayload P (id this) e2) as [[p2|x] e3] eqn:H2.
  2:{ split; [discriminate|]. intros (? & ? & ? & ? & ? & [= <-] & H & H').
      rewrite H1 in H. injection H as <- <-. rewrite H2 in H'. discriminate H'. }
  split; [|reflexivity]. intros _. exists e1, p1, e2, p2, e3. repeat split; assumption.
Qed.

(** X4: in every run of [accept()] the puppet is first asked to accept, once;
    at most two fetches follow, and none when the acceptance was rejected;
    the inviter's ready-wait, if it happens, comes after both fetches. *)
Theorem accept_commits_first s :
  ∃ events,
    trace (snd (accept this s)) = trace s ++ events
    ∧ (puppet_calls events = [accept_event this]
       ∨ puppet_calls events = [accept_event this; fetch_event this]
       ∨ puppet_calls events = [accept_event this; fetch_event this; fetch_event this])
    ∧ (fst (roomInvitationAccept P (id this) (env s)) ≠ Resolved tt →
       puppet_calls events = [accept_event this])
    ∧ (∀ c r before after,
         events = before ++ ContactReady c r :: after →
         puppet_calls before = [accept_event this; fetch_event this; fetch_event this]
         ∧ puppet_calls after = []).
Proof.
  rewrite accept_world.
  destruct (roomInvitationAccept P (id this) (env s)) as [[[]|x] e1].
  2:{ eexists. split; [reflexivity|]. split; [left; reflexivity|].
      split; [reflexivity|].
      intros c r before after Hev.
      destruct before as [|? [|? [|? ?]]]; discriminate Hev. }
  destruct (roomInvitationPayload P (id this) e1) as [[p1|x] e2].
  2:{ eexists. split; [reflexivity|]. split; [right; left; reflexivity|].
      split; [intros Hne; exfalso; apply Hne; reflexivity|].
      intros c r before after Hev.
      destruct before as [|? [|? [|? [|? [|? ?]]]]]; discriminate Hev. }
  destruct (roomInvitationPayload P (id this) e2) as [[p2|x] e3].
  2:{ eexists. split; [reflexivity|]. split; [right; right; reflexivity|].
      split; [intros Hne; exfalso; apply Hne; reflexivity|].
      intros c r before after Hev.
      destruct before as [|? [|? [|? [|? [|? [|? ?]]]]]]; discriminate Hev. }
  destruct (wechaty_Contact_ready w (payload_inviterId p1) e3) as [[[]|x] e4];
    cbn [fst snd accept_ending];
    (eexists; split; [reflexivity|]; split; [right; right; reflexivity|];
     split; [intros Hne; exfalso; apply Hne; reflexivity|];
     intros c r before after Hev;
     destruct before as [|? [|? [|? [|? [|? [|? [|? [|? ?]]]]]]]];
     try discriminate Hev; injection Hev; intros; subst;
     split; reflexivity).
Qed.

(** X5: when the inviter's ready-wait resolves, [accept()] ends with the
    verbose line naming the topic of the second fetch (empty when absent)
    and the inviter of the first, and logs no warning. *)
Theorem accept_logs_ready s e1 p1 e2 p2 e3 e4 :
  roomInvitationAccept P (id this) (env s) = (Resolved tt, e1) →
  roomInvitationPayload P (id this) e1 = (Resolved p1, e2) →
  roomInvitationPayload P (id this) e2 = (Resolved p2, e3) →
  wechaty_Contact_ready w (payload_inviterId p1) e3 = (Resolved tt, e4) →
  ∃ events,
    accept this s = (Resolved tt, {| env := e4; trace := trace s ++ events |})
    ∧ last events
      = Some (Log LogVerbose "RoomInvitation" "accept() with room(%s) & inviter(%s) ready()"
                [ArgString (match payload_topic p2 with
                            | Some t => t
                            | None => EmptyString
                            end);
                 ArgContact (payload_inviterId p1)])
    ∧ Forall (fun ev => ∀ m f args, ev ≠ Log LogWarn m f args) events.
Proof.
  intros Ha H1 H2 Hr. eexists. split; [|split].
  - exact (accept_run w P this Hclass Hpuppet s e1 p1 e2 p2 e3 _ e4 Ha H1 H2 Hr).
  - cbn. rewrite js_or_same. destruct (payload_topic p2) as [[|c t]|]; reflexivity.
  - repeat constructor; intros m f args; discriminate.
Qed.

(** X6: [memberList()] loads one contact per id of the payload, in order,
    and waits for every one of them, whether or not another wait rejects;
    it resolves, to these contacts, exactly when every wait resolves, and a
    rejection it reports is the rejection of one of the waits. *)
Theorem memberList_waits_for_all s p e1 :
  roomInvitationPayload P (id this) (env s) = (Resolved p, e1) →
  snd (memberList this s) =
    {| env := snd (ready_waits w (default [] (payload_memberIdList p)) e1);
       trace := trace s ++ [memberList_log; fetch_event this]
                ++ ready_events (default [] (payload_memberIdList p))
                     (fst (ready_waits w (default [] (payload_memberIdList p)) e1)) |}
  ∧ length (fst (ready_waits w (default [] (payload_memberIdList p)) e1))
    = length (default [] (payload_memberIdList p))
  ∧ (∀ l, fst (memberList this s) = Resolved l
          ↔ Forall (fun r => r = Resolved tt)
              (fst (ready_waits w (default [] (payload_memberIdList p)) e1))
            ∧ l = map (Contact_load w) (default [] (payload_memberIdList p)))
  ∧ (∀ x, fst (memberList this s) = Rejected x →
          In (Rejected x) (fst (ready_waits w (default [] (payload_memberIdList p)) e1)))
  ∧ (∀ l, fst (memberList this s) = Resolved l →
          map contact_id l = default [] (payload_memberIdList p)).
Proof.
  intros Hp.
  assert (js_or_default truthy_array
            (js_or truthy_array (payload_memberIdList p) (payload_memberIdList p)) []
          = default [] (payload_memberIdList p)) as Hids.
  { destruct (payload_memberIdList p); reflexivity. }
  assert (memberList this s =
    (match first_rejection
             (fst (ready_waits w (default [] (payload_memberIdList p)) e1)) with
     | None => Resolved (map (Contact_load w) (default [] (payload_memberIdList p)))
     | Some x => Rejected x
     end,
     {| env := snd (ready_waits w (default [] (payload_memberIdList p)) e1);
        trace := trace s ++ [memberList_log; fetch_event this]
                 ++ ready_events (default [] (payload_memberIdList p))
                      (fst (ready_waits w (default [] (payload_memberIdList p)) e1)) |}))
    as Hrun.
  { rewrite (memberList_run w P this Hclass Hpuppet). unfold derived, fetch.
    rewrite Hp. cbn [fst snd]. rewrite Hids, ready_all_run. cbn [env trace].
    rewrite <- !app_assoc.
    destruct (first_rejection _); reflexivity. }
  rewrite Hrun. cbn [fst snd].
  split; [reflexivity|]. split; [apply ready_waits_length|].
  pose proof (first_rejection_none
                (fst (ready_waits w (default [] (payload_memberIdList p)) e1))) as Hnone.
  pose proof (first_rejection_some
                (fst (ready_waits w (default [] (payload_memberIdList p)) e1))) as Hsome.
  destruct (first_rejection _) as [x|].
  - split; [|split].
    + intros l. split; [discriminate|]. intros [Hall _].
      apply Hnone in Hall. discriminate Hall.
    + intros x' [= <-]. apply Hsome. reflexivity.
    + intros l. discriminate.
  - split; [|split].
    + intros l. split.
      * intros [= <-]. split; [apply Hnone; reflexivity|reflexivity].
      * intros [_ ->]. reflexivity.
    + intros x. discriminate.
    + intros l [= <-]. rewrite map_map. cbn. apply map_id.
Qed.

(** X7: where the date derived from the payload's timestamp is a valid
    date, [age()] is an integer that is negative exactly when the date lies
    after the host clock, zero exactly within the first second, and at least
    [n] exactly when [n] whole seconds have passed. *)
Theorem age_thresholds s p e1 d :
  roomInvitationPayload P (id this) (env s) = (Resolved p, e1) →
  timestampToDate (payload_timestamp p) = ValidDate d →
  ∃ a : Z,
    fst (age this s) = Resolved (Finite a)
    ∧ ((a < 0)%Z ↔ (Date_now e1 < d)%Z)
    ∧ (a = 0%Z ↔ (d ≤ Date_now e1 < d + 1000)%Z)
    ∧ (∀ n : Z, (n ≤ a)%Z ↔ (1000 * n ≤ Date_now e1 - d)%Z).
Proof.
  intros Hp Hd. eexists. split.
  { rewrite (age_run w P this Hclass Hpuppet). unfold derived, fetch. rewrite Hp.
    cbn [fst snd]. rewrite Hd. reflexivity. }
  set (m := (Date_now e1 - d)%Z).
  pose proof (Z.div_mod m 1000 ltac:(lia)) as Hdiv.
  pose proof (Z.mod_pos_bound m 1000 ltac:(lia)) as Hm.
  split; [subst m; lia|]. split; [subst m; lia|].
  intros n. lia.
Qed.

End MoreBound.

(** X8: where the codec reads back the text it writes for [p], [fromJSON]
    does with that text all it does with [p] itself, on any class. *)
Theorem fromJSON_text_or_object (C : RoomInvitationClass W) p s :
  JSON_parse (JSON_stringify p) = Resolved p →
  fromJSON C (inl (JSON_stringify p)) s = fromJSON C (inr p) s.
Proof.
  intros Hcodec. unfold fromJSON, lift_outcome, ret. rewrite Hcodec. reflexivity.
Qed.

(** X9: on the base class [fromJSON] always rejects, with the parse error
    when the text is malformed and with the error of the static getter
    otherwise, after its log line and nothing else. *)
Theorem fromJSON_on_base_class (payload : string + RoomInvitationPayload) s :
  fromJSON RoomInvitationBase payload s =
    (Rejected match parsed payload with
              | Rejected x => x
              | Resolved _ => ErrorObject PlainError direct_use_message
              end,
     {| env := env s; trace := trace s ++ [fromJSON_log payload] |}).
Proof.
  unfold fromJSON, log, bind at 1 2, emit. cbn.
  destruct payload as [text|object]; cbn; [|reflexivity].
  unfold lift_outcome. destruct (JSON_parse text); reflexivity.
Qed.

(** X10: a handle that [load] or [fromJSON] returns belongs to a specialised
    class whose context has a puppet, so that its [wechaty] getter returns;
    its id is the argument of [load], or the id of the payload [fromJSON]
    worked on. *)
Theorem handles_are_bound (C : RoomInvitationClass W) :
  (∀ i s this s',
     load C i s = (Resolved this, s') →
     ∃ w P, C = WechatifiedRoomInvitation w
            ∧ class_of this = WechatifiedRoomInvitation w
            ∧ wechaty_puppet w = Some P
            ∧ id this = i
            ∧ get_wechaty this s' = (Resolved w, s'))
  ∧ (∀ payload s this s',
       fromJSON C payload s = (Resolved this, s') →
       ∃ w P p, class_of this = WechatifiedRoomInvitation w
                ∧ wechaty_puppet w = Some P
                ∧ parsed payload = Resolved p
                ∧ id this = payload_id p
                ∧ get_wechaty this s' = (Resolved w, s')).
Proof.
  assert (∀ (D : RoomInvitationClass W) i s this s',
            load D i s = (Resolved this, s') →
            ∃ w P, D = WechatifiedRoomInvitation w
                   ∧ class_of this = WechatifiedRoomInvitation w
                   ∧ wechaty_puppet w = Some P
                   ∧ id this = i
                   ∧ get_wechaty this s' = (Resolved w, s')) as Hload.
  { intros D i s this s' Hl.
    destruct (load_class D i s this s' Hl) as [HD Hi].
    destruct D as [|w].
    - unfold load, bind in Hl. rewrite constructor_base in Hl. discriminate Hl.
    - destruct (wechaty_puppet w) as [P|] eqn:HP.
      + exists w, P. repeat split; try assumption. apply get_wechaty_run. exact HD.
      + unfold load, bind in Hl. rewrite (constructor_without_puppet w i s HP) in Hl.
        discriminate Hl. }
  split; [exact (Hload C)|].
  intros payload s this s' Hf.
  destruct (parsed payload) as [p|x] eqn:Hp.
  2:{ rewrite (fromJSON_unparsed C payload x s Hp) in Hf. discriminate Hf. }
  destruct C as [|w].
  { rewrite fromJSON_on_base_class in Hf. discriminate Hf. }
  destruct (wechaty_puppet w) as [P|] eqn:HP.
  2:{ exfalso. revert Hf. unfold fromJSON, log, bind at 1 2 3, emit. cbn.
      destruct payload as [text|object]; cbn in Hp |- *.
      - unfold lift_outcome. rewrite Hp. cbn.
        unfold puppet_roomInvitationPayloadSet, puppet_of, bind. rewrite HP. cbn.
        discriminate.
      - unfold puppet_roomInvitationPayloadSet, puppet_of, bind, ret. rewrite HP. cbn.
        discriminate. }
  rewrite (fromJSON_run w P payload p s HP Hp) in Hf.
  destruct (roomInvitationPayloadSet P (payload_id p) p (env s)) as [[[]|x] e1];
    [|discriminate Hf].
  destruct (Hload _ _ _ _ _ Hf) as (w' & P' & _ & HC' & HP' & Hid & Hget).
  exists w', P', p. repeat split; assumption.
Qed.

(** X11: with a stable store, the handle [fromJSON] makes from a text the
    codec reads as [p] serialises, by [toJSON()], to the text of [p]. *)
Theorem fromJSON_then_toJSON
    (P : Puppet Env) (stored : string → RoomInvitationPayload → Env → Prop)
    `{!StableStore P stored} w (text : string) p s :
  wechaty_puppet w = Some P →
  wechaty_RoomInvitation w = WechatifiedRoomInvitation w →
  JSON_parse text = Resolved p →
  fst (roomInvitationPayloadSet P (payload_id p) p (env s)) = Resolved tt →
  ∃ that s1,
    fromJSON (WechatifiedRoomInvitation w) (inl text) s = (Resolved that, s1)
    ∧ id that = payload_id p
    ∧ fst (toJSON that s1) = Resolved (JSON_stringify p).
Proof.
  intros HP HR Hparse Hwrite. eexists _, _.
  split; [exact (fromJSON_when_accepted w P text p s HP HR Hparse Hwrite)|].
  split; [reflexivity|].
  rewrite (toJSON_when_stored P stored w
             {| class_of := WechatifiedRoomInvitation w; id := payload_id p |} _ p
             eq_refl HP); [reflexivity|].
  exact (stored_written _ _ _ Hwrite).
Qed.

(** The reads of the invitation [i] through handles of the class
    specialised for [w]. *)
Definition reads_invitation w i (op : Operation W) : Prop :=
  match op with
  | OpInviter this | OpTopic this | OpMemberCount this | OpDate this | OpAge this
  | OpToJSON this | OpToStringAsync this =>
      class_of this = WechatifiedRoomInvitation w ∧ id this = i
  | _ => False
  end.

(** X12: with a stable store, any sequence of [inviter], [topic],
    [memberCount], [date], [age], [toJSON] and [toStringAsync] calls on an
    invitation leaves its payload stored, and [toJSON()] after them still
    resolves to the text of that payload. *)
Theorem reads_leave_payload
    (P : Puppet Env) (stored : string → RoomInvitationPayload → Env → Prop)
    `{!StableStore P stored} w this p (C : RoomInvitationClass W)
    (ops : list (Operation W)) s :
  class_of this = WechatifiedRoomInvitation w →
  wechaty_puppet w = Some P →
  Forall (reads_invitation w (id this)) ops →
  stored (id this) p (env s) →
  stored (id this) p (env (perform_all C ops s))
  ∧ fst (toJSON this (perform_all C ops s)) = Resolved (JSON_stringify p).
Proof.
  intros HC HP Hops. revert s.
  assert (∀ s, stored (id this) p (env s) →
               fst (toJSON this s) = Resolved (JSON_stringify p)) as Hjson.
  { intros s Hs. rewrite (toJSON_when_stored P stored w this s p HC HP Hs). reflexivity. }
  induction Hops as [|op ops Hop _ IH]; intros s Hs; [split; [exact Hs|exact (Hjson s Hs)]|].
  cbn [perform_all fold_left]. apply IH.
  destruct op as [| |h|h|h|h|h|h|h|h|h]; cbn in Hop; try contradiction;
    destruct Hop as [Hh Hi]; cbn [perform];
    rewrite ?(inviter_run w P h Hh HP), ?(topic_run w P h Hh HP),
      ?(memberCount_run w P h Hh HP), ?(date_run w P h Hh HP),
      ?(age_run w P h Hh HP), ?(toJSON_run w P h Hh HP),
      ?(toStringAsync_run w P h Hh HP);
    unfold derived, fetch; cbn [snd env]; rewrite Hi;
    exact (proj2 (stored_fetch _ _ _ Hs)).
Qed.

End MoreProperties.

(** * The smoke test (tests/fixtures/smoke-testing.ts)

    The script lists bots by the tokens of the process environment, starts
    them all, reports, stops them all, checks [VERSION] and exits.  The
    [Wechaty] class, the console and [process] are collaborators: the bots'
    methods run on the host state, and what reaches the console or a bot is
    recorded in order. *)

(** [new Wechaty({ puppet })] *)
Record SmokeBot := { bot_puppet : string }.

Inductive ConsoleArg :=
  | ConsoleString (s : string)
  | ConsoleNumber (n : Z)
  | ConsoleExn (e : Exn).

Inductive SmokeEvent :=
  | ConsoleInfo (args : list ConsoleArg)
  | ConsoleError (args : list ConsoleArg)
  | BotStart (bot : SmokeBot) (outcome : Outcome unit)
  | BotStop (bot : SmokeBot) (outcome : Outcome unit).

(** [process.env], the methods of a bot the script calls, and the
    [VERSION] the package exports. *)
Class SmokeHost (Env : Type) := {
  process_env       : Env -> string -> option string;
  bot_start         : SmokeBot -> Env -> Outcome unit * Env;
  bot_stop          : SmokeBot -> Env -> Outcome unit * Env;
  bot_version       : SmokeBot -> Env -> Outcome string * Env;
  bot_listenerCount : SmokeBot -> string -> Env -> Outcome Z * Env;
  VERSION           : string;
}.

Record Process (Env : Type) := {
  host_state : Env;
  output     : list SmokeEvent;
}.
Arguments host_state {Env} _.
Arguments output {Env} _.

(** An environment variable as a condition: set and not empty. *)
Definition truthy_variable (value : option string) : bool :=
  match value with
  | Some v => truthy_string v
  | None => false
  end.

(** [getBotList ()] *)
Definition getBotList (env : string -> option string) : list SmokeBot :=
  let botList := [ {| bot_puppet := "wechaty-puppet-mock" |} ] in
  let botList :=
    if truthy_variable (env "WECHATY_PUPPET_SERVICE_TOKEN")
    then botList ++ [ {| bot_puppet := "wechaty-puppet-service" |} ]
    else botList in
  let botList :=
    if truthy_variable (env "WECHATY_PUPPET_PADLOCAL_TOKEN")
    then botList ++ [ {| bot_puppet := "wechaty-puppet-padlocal" |} ]
    else botList in
  botList.

Section SmokeTest.

Context {Env : Type} `{!SmokeHost Env}.

Local Open Scope facade_scope.

Definition record (ev : SmokeEvent) : M (Process Env) unit :=
  fun w =>
    (Resolved tt,
     {| env := {| host_state := host_state (env w); output := output (env w) ++ [ev] |};
        trace := trace w |}).

(** A call of a bot's method. *)
Definition host_call {A} (f : Env -> Outcome A * Env) : M (Process Env) A :=
  fun w =>
    let '(r, e') := f (host_state (env w)) in
    (r, {| env := {| host_state := e'; output := output (env w) |}; trace := trace w |}).

Definition start (bot : SmokeBot) : M (Process Env) unit :=
  fun w =>
    let '(r, w') := host_call (bot_start bot) w in
    let '(_, w'') := record (BotStart bot r) w' in
    (r, w'').

Definition stop (bot : SmokeBot) : M (Process Env) unit :=
  fun w =>
    let '(r, w') := host_call (bot_stop bot) w in
    let '(_, w'') := record (BotStop bot r) w' in
    (r, w'').

(** [for (const x of l) { body }] *)
Fixpoint for_of {A} (l : list A) (body : A -> M (Process Env) unit) : M (Process Env) unit :=
  match l with
  | [] => ret tt
  | a :: rest => body a ;;; for_of rest body
  end.

(** [try { body } finally { cleanup }]: the cleanup runs either way, and its
    own rejection replaces the outcome of the body. *)
Definition try_finally {A} (body : M (Process Env) A) (cleanup : M (Process Env) unit)
  : M (Process Env) A :=
  fun w =>
    let '(r, w') := body w in
    match cleanup w' with
    | (Resolved _, w'') => (r, w'')
    | (Rejected e, w'') => (Rejected e, w'')
    end.

Definition assertion_failure : Exn := ErrorObject PlainError "VERSION must be set!".

(** [assert.notStrictEqual(actual, expected, message)] on strings. *)
Definition assert_notStrictEqual (actual expected : string) (failure : Exn)
  : M (Process Env) unit :=
  if String.eqb actual expected then throw failure else ret tt.

(** [async function main ()]; the [try] block yields [None] when it falls
    through and the [catch] block [Some 1] for its [return 1]. *)
Definition main : M (Process Env) Z :=
  botList <- read_env (fun e => getBotList (process_env (host_state e))) ;;
  returned <-
    try_finally
      (try_catch
         (Promise_all (map (fun bot => start bot) botList) ;;;
          for_of botList (fun bot =>
            version <- host_call (bot_version bot) ;;
            record (ConsoleInfo
                      [ConsoleString ("Wechaty v" ++ version ++ " smoking test passed.")]) ;;;
            count <- host_call (bot_listenerCount bot "message") ;;
            record (ConsoleInfo
                      [ConsoleString "listenerCount(message) is"; ConsoleNumber count])) ;;;
          ret None)
         (fun e =>
            record (ConsoleError [ConsoleExn e]) ;;;
            ret (Some 1%Z)))
      (Promise_all (map (fun bot => stop bot) botList) ;;; ret tt) ;;
  match returned with
  | Some code => ret code
  | None =>
      assert_notStrictEqual VERSION "0.0.0" assertion_failure ;;;
      ret 0%Z
  end.

(** [main().then(process.exit).catch(e => { console.error(e); process.exit(1) })]:
    the exit code and the final state. *)
Definition script (w : World (Process Env)) : Z * World (Process Env) :=
  match main w with
  | (Resolved code, w') => (code, w')
  | (Rejected e, w') => (1%Z, snd (record (ConsoleError [ConsoleExn e]) w'))
  end.

End SmokeTest.

(** ** Runs of the smoke test *)

(** The outcomes of calling [f] on each bot in turn, and the state left. *)
Fixpoint host_calls {Env} (f : SmokeBot -> Env -> Outcome unit * Env)
    (bots : list SmokeBot) (e : Env) : list (Outcome unit) * Env :=
  match bots with
  | [] => ([], e)
  | bot :: rest =>
      let '(r, e1) := f bot e in
      let '(rs, e2) := host_calls f rest e1 in
      (r :: rs, e2)
  end.

Fixpoint bot_events (event : SmokeBot -> Outcome unit -> SmokeEvent)
    (bots : list SmokeBot) (rs : list (Outcome unit)) : list SmokeEvent :=
  match bots, rs with
  | bot :: bots', r :: rs' => event bot r :: bot_events event bots' rs'
  | _, _ => []
  end.

Definition version_line (version : string) : SmokeEvent :=
  ConsoleInfo [ConsoleString ("Wechaty v" ++ version ++ " smoking test passed.")].

Definition listeners_line (count : Z) : SmokeEvent :=
  ConsoleInfo [ConsoleString "listenerCount(message) is"; ConsoleNumber count].

(** The report loop: the error that ends it, if any, the state left and the
    lines printed. *)
Fixpoint report {Env} `{!SmokeHost Env} (bots : list SmokeBot) (e : Env)
  : option Exn * Env * list SmokeEvent :=
  match bots with
  | [] => (None, e, [])
  | bot :: rest =>
      match bot_version bot e with
      | (Rejected x, e1) => (Some x, e1, [])
      | (Resolved version, e1) =>
          match bot_listenerCount bot "message" e1 with
          | (Rejected x, e2) => (Some x, e2, [version_line version])
          | (Resolved count, e2) =>
              let '(failure, e3, lines) := report rest e2 in
              (failure, e3, version_line version :: listeners_line count :: lines)
          end
      end
  end.

Definition is_stop (ev : SmokeEvent) : bool :=
  match ev with BotStop _ _ => true | _ => false end.

Definition is_info (ev : SmokeEvent) : bool :=
  match ev with ConsoleInfo _ => true | _ => false end.

Definition is_error (ev : SmokeEvent) : bool :=
  match ev with ConsoleError _ => true | _ => false end.

Definition mock_bot : SmokeBot := {| bot_puppet := "wechaty-puppet-mock" |}.
Definition service_bot : SmokeBot := {| bot_puppet := "wechaty-puppet-service" |}.
Definition padlocal_bot : SmokeBot := {| bot_puppet := "wechaty-puppet-padlocal" |}.

(** X13: the bot list always starts with the mock bot; the service bot is
    in it exactly when its token is set and not empty, the padlocal bot
    likewise, the service bot before the padlocal bot; no bot is listed
    twice. *)
Theorem getBotList_shape (env : string → option string) :
  getBotList env =
    mock_bot
    :: (if truthy_variable (env "WECHATY_PUPPET_SERVICE_TOKEN") then [service_bot] else [])
    ++ (if truthy_variable (env "WECHATY_PUPPET_PADLOCAL_TOKEN") then [padlocal_bot] else [])
  ∧ (1 ≤ length (getBotList env) ≤ 3)%nat
  ∧ (In service_bot (getBotList env)
     ↔ ∃ token, env "WECHATY_PUPPET_SERVICE_TOKEN" = Some token ∧ token ≠ EmptyString)
  ∧ (In padlocal_bot (getBotList env)
     ↔ ∃ token, env "WECHATY_PUPPET_PADLOCAL_TOKEN" = Some token ∧ token ≠ EmptyString)
  ∧ List.NoDup (getBotList env).
Proof.
  assert (∀ v : option string,
            truthy_variable v = true ↔ ∃ token, v = Some token ∧ token ≠ EmptyString)
    as Htruthy.
  { intros [[|c t]|]; cbn; split; try discriminate.
    - intros (token & [= <-] & Hne). congruence.
    - intros _. eexists. split; [reflexivity|discriminate].
    - reflexivity.
    - intros (token & [=] & _). }
  unfold getBotList.
  rewrite <- (Htruthy (env "WECHATY_PUPPET_SERVICE_TOKEN")),
    <- (Htruthy (env "WECHATY_PUPPET_PADLOCAL_TOKEN")).
  destruct (truthy_variable (env "WECHATY_PUPPET_SERVICE_TOKEN")),
    (truthy_variable (env "WECHATY_PUPPET_PADLOCAL_TOKEN")); cbn;
    (split; [reflexivity|]); (split; [lia|]);
    (split; [intuition (discriminate || auto)|]);
    (split; [intuition (discriminate || auto)|]);
    repeat (apply List.NoDup_cons; [cbn; intuition discriminate|]);
    apply List.NoDup_nil.
Qed.

Lemma getBotList_head (env : string → option string) :
  ∃ rest, getBotList env = mock_bot :: rest.
Proof.
  unfold getBotList.
  destruct (truthy_variable (env "WECHATY_PUPPET_SERVICE_TOKEN")),
    (truthy_variable (env "WECHATY_PUPPET_PADLOCAL_TOKEN")); eexists; reflexivity.
Qed.

Section SmokeRuns.

Context {Env : Type} `{!SmokeHost Env}.

Implicit Types (w : World (Process Env)) (bots : list SmokeBot) (e : Env).

Lemma host_calls_length (f : SmokeBot → Env → Outcome unit * Env) bots e :
  length (fst (host_calls f bots e)) = length bots.
Proof.
  revert e. induction bots as [|bot bots IH]; intros e; [reflexivity|].
  cbn [host_calls]. destruct (f bot e) as [r e1].
  specialize (IH e1). destruct (host_calls f bots e1) as [rs e2]. cbn in IH |- *.
  rewrite IH. reflexivity.
Qed.

(** [Promise.all] over one call per bot, each recorded with its outcome. *)
Lemma calls_run (f : SmokeBot → Env → Outcome unit * Env)
    (event : SmokeBot → Outcome unit → SmokeEvent)
    (call : SmokeBot → M (Process Env) unit) bots w :
  (∀ bot w',
     call bot w' =
       (fst (f bot (host_state (env w'))),
        {| env := {| host_state := snd (f bot (host_state (env w')));
                     output := output (env w') ++ [event bot (fst (f bot (host_state (env w'))))] |};
           trace := trace w' |})) →
  Promise_all (map call bots) w =
    (match first_rejection (fst (host_calls f bots (host_state (env w)))) with
     | None => Resolved (map (fun _ => tt) bots)
     | Some x => Rejected x
     end,
     {| env := {| host_state := snd (host_calls f bots (host_state (env w)));
                  output := output (env w)
                            ++ bot_events event bots
                                 (fst (host_calls f bots (host_state (env w)))) |};
        trace := trace w |}).
Proof.
  intros Hcall. revert w. induction bots as [|bot bots IH]; intros w.
  - cbn. rewrite app_nil_r. destruct w as [[e out] t]; reflexivity.
  - cbn [map Promise_all host_calls]. rewrite Hcall, IH. cbn.
    destruct (f bot (host_state (env w))) as [r e1]. cbn.
    destruct (host_calls f bots e1) as [rs e2]. cbn. rewrite <- app_assoc. cbn.
    destruct r as [[]|x]; [|reflexivity].
    destruct (first_rejection rs); reflexivity.
Qed.

Lemma start_run bot w :
  start bot w =
    (fst (bot_start bot (host_state (env w))),
     {| env := {| host_state := snd (bot_start bot (host_state (env w)));
                  output := output (env w)
                            ++ [BotStart bot (fst (bot_start bot (host_state (env w))))] |};
        trace := trace w |}).
Proof.
  unfold start, host_call, record.
  destruct (bot_start bot (host_state (env w))) as [r e1]. reflexivity.
Qed.

Lemma stop_run bot w :
  stop bot w =
    (fst (bot_stop bot (host_state (env w))),
     {| env := {| host_state := snd (bot_stop bot (host_state (env w)));
                  output := output (env w)
                            ++ [BotStop bot (fst (bot_stop bot (host_state (env w))))] |};
        trace := trace w |}).
Proof.
  unfold stop, host_call, record.
  destruct (bot_stop bot (host_state (env w))) as [r e1]. reflexivity.
Qed.

(** The body of the report loop. *)
Definition report_step (bot : SmokeBot) : M (Process Env) unit :=
  bind (host_call (bot_version bot)) (fun version =>
  bind (record (ConsoleInfo
                  [ConsoleString ("Wechaty v" ++ version ++ " smoking test passed.")]))
       (fun _ =>
  bind (host_call (bot_listenerCount bot "message")) (fun count =>
  record (ConsoleInfo [ConsoleString "listenerCount(message) is"; ConsoleNumber count])))).

Lemma report_run bots w :
  for_of bots report_step w =
    (match fst (fst (report bots (host_state (env w)))) with
     | Some x => Rejected x
     | None => Resolved tt
     end,
     {| env := {| host_state := snd (fst (report bots (host_state (env w))));
                  output := output (env w) ++ snd (report bots (host_state (env w))) |};
        trace := trace w |}).
Proof.
  revert w. induction bots as [|bot bots IH]; intros w.
  - cbn. rewrite app_nil_r. destruct w as [[e out] t]; reflexivity.
  - cbn [for_of report]. unfold bind at 1. unfold report_step at 1.
    unfold bind at 1, host_call at 1.
    destruct (bot_version bot (host_state (env w))) as [[version|x] e1]; cbn.
    2:{ rewrite app_nil_r. reflexivity. }
    unfold bind at 1, host_call at 1. cbn.
    destruct (bot_listenerCount bot "message" e1) as [[count|x] e2]; cbn.
    2:{ reflexivity. }
    rewrite IH. cbn.
    destruct (report bots e2) as [[failure e3] lines]. cbn.
    rewrite <- !app_assoc. reflexivity.
Qed.

(** The parts of a run of [main]. *)
Definition smoke_bots w : list SmokeBot := getBotList (process_env (host_state (env w))).

Definition starts w : list (Outcome unit) * Env :=
  host_calls bot_start (smoke_bots w) (host_state (env w)).

Definition attempt w : option Exn * Env * list SmokeEvent :=
  match first_rejection (fst (starts w)) with
  | Some x => (Some x, snd (starts w), [])
  | None => report (smoke_bots w) (snd (starts w))
  end.

Definition caught w : list SmokeEvent :=
  match fst (fst (attempt w)) with
  | Some x => [ConsoleError [ConsoleExn x]]
  | None => []
  end.

Definition stops w : list (Outcome unit) * Env :=
  host_calls bot_stop (smoke_bots w) (snd (fst (attempt w))).

Definition main_events w : list SmokeEvent :=
  bot_events BotStart (smoke_bots w) (fst (starts w))
  ++ snd (attempt w) ++ caught w
  ++ bot_events BotStop (smoke_bots w) (fst (stops w)).

Definition main_outcome w : Outcome Z :=
  match first_rejection (fst (stops w)) with
  | Some y => Rejected y
  | None =>
      match fst (fst (attempt w)) with
      | Some _ => Resolved 1%Z
      | None =>
          if String.eqb VERSION "0.0.0" then Rejected assertion_failure else Resolved 0%Z
      end
  end.

Lemma main_run w :
  main w =
    (main_outcome w,
     {| env := {| host_state := snd (stops w); output := output (env w) ++ main_events w |};
        trace := trace w |}).
Proof.
  unfold main, bind at 1, read_env. cbn [env].
  change (getBotList (process_env (host_state (env w)))) with (smoke_bots w).
  unfold bind at 1, try_finally, try_catch.
  unfold bind at 1.
  rewrite (calls_run bot_start BotStart (fun bot => start bot) (smoke_bots w) w start_run).
  fold (starts w).
  unfold main_outcome, main_events, stops, caught, attempt.
  destruct (first_rejection (fst (starts w))) as [x|] eqn:Hstarts.
  - cbn. unfold bind at 1.
    rewrite (calls_run bot_stop BotStop (fun bot => stop bot) (smoke_bots w) _ stop_run).
    cbn. destruct (first_rejection (fst (host_calls bot_stop _ _))) as [y|]; cbn; rewrite <- !app_assoc; reflexivity.
  - unfold bind at 1.
    match goal with
    | |- context [for_of (smoke_bots w) ?f ?w0] =>
        change (for_of (smoke_bots w) f w0) with (for_of (smoke_bots w) report_step w0)
    end.
    rewrite report_run. cbn [env host_state output trace].
    destruct (report (smoke_bots w) (snd (starts w))) as [[[x|] e2] lines]; cbn.
    + unfold bind at 1.
      rewrite (calls_run bot_stop BotStop (fun bot => stop bot) (smoke_bots w) _ stop_run).
      cbn. destruct (first_rejection (fst (host_calls bot_stop _ _))) as [y|]; cbn; rewrite <- !app_assoc; reflexivity.
    + unfold bind at 1.
      rewrite (calls_run bot_stop BotStop (fun bot => stop bot) (smoke_bots w) _ stop_run).
      cbn. destruct (first_rejection (fst (host_calls bot_stop _ _))) as [y|]; cbn; rewrite <- ?app_assoc;
        [reflexivity|].
      unfold assert_notStrictEqual, bind, throw, ret.
      destruct (String.eqb VERSION "0.0.0"); rewrite ?app_nil_r; reflexivity.
Qed.

End SmokeRuns.

(** An event of a run in which nothing failed. *)
Definition clean (ev : SmokeEvent) : Prop :=
  match ev with
  | ConsoleInfo _ => True
  | ConsoleError _ => False
  | BotStart _ r | BotStop _ r => r = Resolved tt
  end.

Section SmokeProperties.

Context {Env : Type} `{!SmokeHost Env}.

Implicit Types (w : World (Process Env)) (bots : list SmokeBot) (e : Env).

Lemma bot_events_filter (event : SmokeBot → Outcome unit → SmokeEvent)
    (keep : SmokeEvent → bool) bots (rs : list (Outcome unit)) :
  length rs = length bots →
  (∀ bot r, keep (event bot r) = true) →
  length (List.filter keep (bot_events event bots rs)) = length bots.
Proof.
  intros Hlen Hkeep. revert rs Hlen.
  induction bots as [|bot bots IH]; intros [|r rs] Hlen; try discriminate Hlen;
    [reflexivity|].
  cbn. rewrite Hkeep. cbn. rewrite IH; [reflexivity|]. cbn in Hlen. lia.
Qed.

Lemma bot_events_filter_out (event : SmokeBot → Outcome unit → SmokeEvent)
    (keep : SmokeEvent → bool) bots (rs : list (Outcome unit)) :
  (∀ bot r, keep (event bot r) = false) →
  List.filter keep (bot_events event bots rs) = [].
Proof.
  intros Hkeep. revert rs.
  induction bots as [|bot bots IH]; intros [|r rs]; try reflexivity.
  cbn. rewrite Hkeep. apply IH.
Qed.

Lemma bot_events_clean (event : SmokeBot → Outcome unit → SmokeEvent)
    bots (rs : list (Outcome unit)) :
  (∀ bot r, clean (event bot r) ↔ r = Resolved tt) →
  length rs = length bots →
  (Forall clean (bot_events event bots rs) ↔ first_rejection rs = None).
Proof.
  intros Hclean. revert rs.
  induction bots as [|bot bots IH]; intros [|r rs] Hlen; try discriminate Hlen.
  - cbn. split; [reflexivity|constructor].
  - cbn [bot_events first_rejection]. rewrite Forall_cons, Hclean, IH by (cbn in Hlen; lia).
    destruct r as [[]|x]; [tauto|].
    split; [intros [[=] _]|discriminate].
Qed.

Lemma report_lines bots e :
  Forall (fun ev => is_info ev = true) (snd (report bots e)).
Proof.
  revert e. induction bots as [|bot bots IH]; intros e; [constructor|].
  cbn [report]. destruct (bot_version bot e) as [[version|x] e1]; [|constructor].
  destruct (bot_listenerCount bot "message" e1) as [[count|x] e2];
    [|repeat constructor].
  specialize (IH e2). destruct (report bots e2) as [[failure e3] lines].
  cbn in IH |- *. repeat constructor. exact IH.
Qed.

Lemma infos_clean (lines : list SmokeEvent) :
  Forall (fun ev => is_info ev = true) lines → Forall clean lines.
Proof.
  intros Hl. eapply Forall_impl; [exact Hl|].
  intros [args|args|bot r|bot r]; cbn; try discriminate. trivial.
Qed.

Lemma all_resolved (f : SmokeBot → Env → Outcome unit * Env) bots e :
  (∀ bot e', fst (f bot e') = Resolved tt) →
  first_rejection (fst (host_calls f bots e)) = None.
Proof.
  intros Hf. revert e. induction bots as [|bot bots IH]; intros e; [reflexivity|].
  cbn [host_calls]. specialize (Hf bot e). destruct (f bot e) as [r e1]. cbn in Hf. subst r.
  specialize (IH e1). destruct (host_calls f bots e1) as [rs e2]. exact IH.
Qed.

Lemma head_rejected (f : SmokeBot → Env → Outcome unit * Env) bot bots e x :
  fst (f bot e) = Rejected x →
  first_rejection (fst (host_calls f (bot :: bots) e)) = Some x.
Proof.
  intros Hf. cbn [host_calls]. destruct (f bot e) as [r e1]. cbn in Hf. subst r.
  destruct (host_calls f bots e1) as [rs e2]. reflexivity.
Qed.

Lemma report_all_resolved bots e :
  (∀ bot e', ∃ v, fst (bot_version bot e') = Resolved v) →
  (∀ bot e', ∃ n, fst (bot_listenerCount bot "message" e') = Resolved n) →
  fst (fst (report bots e)) = None
  ∧ length (snd (report bots e)) = (2 * length bots)%nat.
Proof.
  intros Hv Hn. revert e. induction bots as [|bot bots IH]; intros e; [split; reflexivity|].
  cbn [report]. destruct (Hv bot e) as [v Hve].
  destruct (bot_version bot e) as [r e1]. cbn in Hve. subst r.
  destruct (Hn bot e1) as [n Hne].
  destruct (bot_listenerCount bot "message" e1) as [r e2]. cbn in Hne. subst r.
  specialize (IH e2). destruct (report bots e2) as [[failure e3] lines].
  cbn in IH |- *. destruct IH as [-> ->]. split; [reflexivity|lia].
Qed.

Lemma filter_all (keep : SmokeEvent → bool) (l : list SmokeEvent) :
  Forall (fun ev => keep ev = true) l → List.filter keep l = l.
Proof.
  induction 1 as [|ev l Hev _ IH]; [reflexivity|]. cbn. rewrite Hev, IH. reflexivity.
Qed.

Lemma filter_none (keep drop : SmokeEvent → bool) (l : list SmokeEvent) :
  (∀ ev, drop ev = true → keep ev = false) →
  Forall (fun ev => drop ev = true) l → List.filter keep l = [].
Proof.
  intros Hd. induction 1 as [|ev l Hev _ IH]; [reflexivity|].
  cbn. rewrite (Hd ev Hev). exact IH.
Qed.

(** X14: in every run [main] starts every listed bot once, in list order,
    and ends by stopping every one of them once, in list order; between the
    two it only prints. *)
Theorem main_stops_every_bot w :
  ∃ ss between ts,
    output (env (snd (main w)))
    = output (env w)
      ++ bot_events BotStart (getBotList (process_env (host_state (env w)))) ss
      ++ between
      ++ bot_events BotStop (getBotList (process_env (host_state (env w)))) ts
    ∧ length ss = length (getBotList (process_env (host_state (env w))))
    ∧ length ts = length (getBotList (process_env (host_state (env w))))
    ∧ Forall (fun ev => is_info ev = true ∨ is_error ev = true) between.
Proof.
  rewrite main_run. cbn [snd env output].
  exists (fst (starts w)), (snd (attempt w) ++ caught w), (fst (stops w)).
  split; [unfold main_events, smoke_bots; rewrite <- !app_assoc; reflexivity|].
  split; [apply host_calls_length|]. split; [apply host_calls_length|].
  apply Forall_app. split.
  - unfold attempt. destruct (first_rejection (fst (starts w))); [constructor|].
    eapply Forall_impl; [apply report_lines|]. intros ev Hev. left. exact Hev.
  - unfold caught. destruct (fst (fst (attempt w))); [|constructor].
    apply Forall_cons. split; [right; reflexivity|constructor].
Qed.

Lemma script_run w :
  script w =
    match main_outcome w with
    | Resolved code =>
        (code,
         {| env := {| host_state := snd (stops w);
                      output := output (env w) ++ main_events w |};
            trace := trace w |})
    | Rejected x =>
        (1%Z,
         {| env := {| host_state := snd (stops w);
                      output := output (env w) ++ main_events w
                                ++ [ConsoleError [ConsoleExn x]] |};
            trace := trace w |})
    end.
Proof.
  unfold script. rewrite main_run.
  destruct (main_outcome w); [reflexivity|].
  unfold record. cbn. rewrite <- app_assoc. reflexivity.
Qed.

Lemma starts_clean w :
  Forall clean (bot_events BotStart (smoke_bots w) (fst (starts w)))
  ↔ first_rejection (fst (starts w)) = None.
Proof.
  apply bot_events_clean; [intros bot r; reflexivity|apply host_calls_length].
Qed.

Lemma stops_clean w :
  Forall clean (bot_events BotStop (smoke_bots w) (fst (stops w)))
  ↔ first_rejection (fst (stops w)) = None.
Proof.
  apply bot_events_clean; [intros bot r; reflexivity|apply host_calls_length].
Qed.

(** X15: the script exits with 0 or 1, and with 0 exactly when every start
    and every stop resolved and nothing was printed as an error; then
    [VERSION] is not 0.0.0. *)
Theorem script_exit_code w :
  ∃ events,
    output (env (snd (script w))) = output (env w) ++ events
    ∧ (fst (script w) = 0%Z ∨ fst (script w) = 1%Z)
    ∧ (fst (script w) = 0%Z ↔ Forall clean events)
    ∧ (fst (script w) = 0%Z → VERSION ≠ "0.0.0"%string).
Proof.
  rewrite script_run. unfold main_outcome.
  assert (∀ x (l : list SmokeEvent), ¬ Forall clean (l ++ [ConsoleError [ConsoleExn x]]))
    as Hprinted.
  { intros x l Hl. apply Forall_app in Hl as [_ Hl]. inversion Hl as [|? ? Hev _]. exact Hev. }
  destruct (first_rejection (fst (stops w))) as [y|] eqn:Hstops.
  { eexists. split; [reflexivity|]. cbn [fst]. split; [right; reflexivity|].
    split; [split; [discriminate|intros Hc; destruct (Hprinted _ _ Hc)]|discriminate]. }
  destruct (fst (fst (attempt w))) as [x|] eqn:Hattempt.
  { eexists. split; [reflexivity|]. cbn [fst]. split; [right; reflexivity|].
    split; [split; [discriminate|]|discriminate].
    unfold main_events, caught. rewrite Hattempt. intros Hc.
    apply Forall_app in Hc as [_ Hc]. apply Forall_app in Hc as [_ Hc].
    apply Forall_app in Hc as [Hc _]. inversion Hc as [|? ? Hev _]. destruct Hev. }
  destruct (String.eqb_spec VERSION "0.0.0") as [Hv|Hv].
  { eexists. split; [reflexivity|]. cbn [fst]. split; [right; reflexivity|].
    split; [split; [discriminate|intros Hc; destruct (Hprinted _ _ Hc)]|discriminate]. }
  eexists. split; [reflexivity|]. cbn [fst]. split; [left; reflexivity|].
  split; [|intros _; exact Hv]. split; [|reflexivity]. intros _.
  unfold main_events, caught. rewrite Hattempt.
  assert (first_rejection (fst (starts w)) = None ∧ Forall clean (snd (attempt w)))
    as [Hstarts Hlines].
  { revert Hattempt. unfold attempt.
    destruct (first_rejection (fst (starts w))); [discriminate|].
    intros _. split; [reflexivity|]. apply infos_clean, report_lines. }
  apply Forall_app. split; [apply starts_clean, Hstarts|].
  apply Forall_app. split; [exact Hlines|].
  apply Forall_app. split; [constructor|apply stops_clean, Hstops].
Qed.

(** X16: when every start, every stop and every call of the report
    resolves, the script exits with 0, unless [VERSION] is 0.0.0: then
    [main] rejects with the assertion's failure and the script exits
    with 1.  Either way two lines were printed for each bot. *)
Theorem script_passes w :
  (∀ bot e, fst (bot_start bot e) = Resolved tt) →
  (∀ bot e, fst (bot_stop bot e) = Resolved tt) →
  (∀ bot e, ∃ v, fst (bot_version bot e) = Resolved v) →
  (∀ bot e, ∃ n, fst (bot_listenerCount bot "message" e) = Resolved n) →
  fst (main w) = (if String.eqb VERSION "0.0.0"
                  then Rejected assertion_failure else Resolved 0%Z)
  ∧ fst (script w) = (if String.eqb VERSION "0.0.0" then 1%Z else 0%Z)
  ∧ ∃ events,
      output (env (snd (main w))) = output (env w) ++ events
      ∧ length (List.filter is_info events)
        = (2 * length (getBotList (process_env (host_state (env w)))))%nat.
Proof.
  intros Hstart Hstop Hversion Hcount.
  pose proof (all_resolved bot_start (smoke_bots w) (host_state (env w)) Hstart) as Hstarts.
  fold (starts w) in Hstarts.
  destruct (report_all_resolved (smoke_bots w) (snd (starts w)) Hversion Hcount)
    as [Hnone Hlen].
  assert (attempt w = report (smoke_bots w) (snd (starts w))) as Hattempt.
  { unfold attempt. rewrite Hstarts. reflexivity. }
  pose proof (all_resolved bot_stop (smoke_bots w) (snd (fst (attempt w))) Hstop) as Hstops.
  fold (stops w) in Hstops.
  assert (main_outcome w = (if String.eqb VERSION "0.0.0"
                            then Rejected assertion_failure else Resolved 0%Z)) as Hout.
  { unfold main_outcome. rewrite Hstops, Hattempt, Hnone. reflexivity. }
  split; [rewrite main_run; exact Hout|].
  split; [rewrite script_run, Hout; destruct (String.eqb VERSION "0.0.0"); reflexivity|].
  rewrite main_run. eexists. split; [reflexivity|].
  unfold main_events, caught. rewrite Hattempt, Hnone.
  rewrite !List.filter_app, !length_app.
  rewrite (bot_events_filter_out BotStart is_info), (bot_events_filter_out BotStop is_info)
    by reflexivity.
  rewrite (filter_all is_info _ (report_lines _ _)), Hlen. cbn. unfold smoke_bots. lia.
Qed.

(** X17: when the mock bot cannot start, the other bots start and every
    stop resolves, [main] prints the error and resolves to 1, whatever
    [VERSION] is: nothing is reported, every bot is still stopped, and the
    script exits with 1. *)
Theorem start_failure_exits_1 w x :
  (∀ e, fst (bot_start mock_bot e) = Rejected x) →
  (∀ bot e, bot ≠ mock_bot → fst (bot_start bot e) = Resolved tt) →
  (∀ bot e, fst (bot_stop bot e) = Resolved tt) →
  fst (main w) = Resolved 1%Z
  ∧ fst (script w) = 1%Z
  ∧ ∃ events,
      output (env (snd (main w))) = output (env w) ++ events
      ∧ In (ConsoleError [ConsoleExn x]) events
      ∧ List.filter is_info events = []
      ∧ length (List.filter is_stop events)
        = length (getBotList (process_env (host_state (env w)))).
Proof.
  intros Hstart _ Hstop.
  assert (first_rejection (fst (starts w)) = Some x) as Hstarts.
  { unfold starts, smoke_bots.
    destruct (getBotList_head (process_env (host_state (env w)))) as [rest ->].
    apply head_rejected, Hstart. }
  assert (attempt w = (Some x, snd (starts w), [])) as Hattempt.
  { unfold attempt. rewrite Hstarts. reflexivity. }
  pose proof (all_resolved bot_stop (smoke_bots w) (snd (fst (attempt w))) Hstop) as Hstops.
  fold (stops w) in Hstops.
  assert (main_outcome w = Resolved 1%Z) as Hout.
  { unfold main_outcome. rewrite Hstops, Hattempt. reflexivity. }
  split; [rewrite main_run; exact Hout|].
  split; [rewrite script_run, Hout; reflexivity|].
  rewrite main_run. eexists. split; [reflexivity|].
  unfold main_events, caught. rewrite Hattempt. cbn [fst snd].
  split; [apply in_or_app; right; left; reflexivity|].
  rewrite !List.filter_app, !length_app.
  rewrite (bot_events_filter_out BotStart is_info), (bot_events_filter_out BotStop is_info),
    (bot_events_filter_out BotStart is_stop) by reflexivity.
  rewrite (bot_events_filter BotStop is_stop) by (apply host_calls_length || reflexivity).
  split; [reflexivity|]. cbn. unfold smoke_bots. lia.
Qed.

(** X18: when the mock bot cannot stop and the other bots stop, [main]
    rejects with that error, whatever happened before, and the script
    prints it last and exits with 1. *)
Theorem stop_failure_exits_1 w y :
  (∀ e, fst (bot_stop mock_bot e) = Rejected y) →
  (∀ bot e, bot ≠ mock_bot → fst (bot_stop bot e) = Resolved tt) →
  fst (main w) = Rejected y
  ∧ fst (script w) = 1%Z
  ∧ last (output (env (snd (script w)))) = Some (ConsoleError [ConsoleExn y]).
Proof.
  intros Hstop _.
  assert (first_rejection (fst (stops w)) = Some y) as Hstops.
  { unfold stops, smoke_bots.
    destruct (getBotList_head (process_env (host_state (env w)))) as [rest ->].
    apply head_rejected, Hstop. }
  assert (main_outcome w = Rejected y) as Hout.
  { unfold main_outcome. rewrite Hstops. reflexivity. }
  split; [rewrite main_run; exact Hout|].
  rewrite script_run, Hout. split; [reflexivity|].
  cbn [snd env output]. rewrite !app_assoc. apply last_snoc.
Qed.

End SmokeProperties.

(** * Further concrete runs *)

Lemma toStringAsync_extends_toString_witness :
  fst (toStringAsync scenario_invitation scenario_world)
  = Resolved "RoomInvitation#i1<T,c1>"%string
  ∧ toString scenario_invitation = "RoomInvitation#i1"%string.
Proof.
  destruct (toStringAsync_extends_toString BotWithPuppet memory_puppet scenario_invitation
              eq_refl bot_has_puppet scenario_world scenario_payload scenario_env eq_refl)
    as [Hrun _].
  split; [rewrite Hrun; reflexivity|reflexivity].
Defined.

Lemma accept_resolves_iff_witness :
  fst (accept scenario_invitation scenario_world) = Resolved tt
  ∧ fst (accept scenario_invitation refusing_world) ≠ Resolved tt.
Proof.
  split.
  - apply (accept_resolves_iff BotWithPuppet memory_puppet scenario_invitation eq_refl
             bot_has_puppet scenario_world).
    exists (snd (memory_accept "i1" scenario_env)), scenario_payload,
      (snd (memory_accept "i1" scenario_env)), scenario_payload,
      (snd (memory_accept "i1" scenario_env)).
    repeat split.
  - intros Hr.
    apply (accept_resolves_iff BotWithPuppet memory_puppet scenario_invitation eq_refl
             bot_has_puppet refusing_world) in Hr.
    destruct Hr as (e1 & _ & _ & _ & _ & Ha & _). discriminate Ha.
Defined.

Lemma accept_commits_first_witness :
  ∃ events,
    trace (snd (accept scenario_invitation refusing_world))
    = trace refusing_world ++ events
    ∧ puppet_calls events = [PuppetRoomInvitationAccept "i1"].
Proof.
  destruct (accept_commits_first BotWithPuppet memory_puppet scenario_invitation eq_refl
              bot_has_puppet refusing_world) as (events & Htrace & _ & Hrejected & _).
  exists events. split; [exact Htrace|]. apply Hrejected. discriminate.
Defined.

Lemma accept_logs_ready_witness :
  ∃ events,
    accept scenario_invitation scenario_world
    = (Resolved tt,
       {| env := snd (memory_accept "i1" scenario_env);
          trace := trace scenario_world ++ events |})
    ∧ last events
      = Some (Log LogVerbose "RoomInvitation" "accept() with room(%s) & inviter(%s) ready()"
                [ArgString "T"; ArgContact "c1"])
    ∧ Forall (fun ev => ∀ m f args, ev ≠ Log LogWarn m f args) events.
Proof.
  exact (accept_logs_ready BotWithPuppet memory_puppet scenario_invitation eq_refl
           bot_has_puppet scenario_world
           (snd (memory_accept "i1" scenario_env)) scenario_payload
           (snd (memory_accept "i1" scenario_env)) scenario_payload
           (snd (memory_accept "i1" scenario_env)) (snd (memory_accept "i1" scenario_env))
           eq_refl eq_refl eq_refl eq_refl).
Defined.

Lemma memberList_waits_for_all_witness :
  snd (memberList scenario_invitation unready_world)
  = {| env := unready_env [];
       trace := [memberList_log; fetch_event scenario_invitation;
                 ContactReady "c1" (Rejected contact_unavailable);
                 ContactReady "c2" (Resolved tt); ContactReady "c3" (Resolved tt)] |}
  ∧ ∀ x, fst (memberList scenario_invitation unready_world) = Rejected x →
         x = contact_unavailable.
Proof.
  destruct (memberList_waits_for_all BotWithPuppet memory_puppet scenario_invitation eq_refl
              bot_has_puppet unready_world scenario_payload (unready_env []) eq_refl)
    as (Hrun & _ & _ & Hrejected & _).
  split; [rewrite Hrun; reflexivity|].
  intros x Hx. apply Hrejected in Hx. vm_compute in Hx.
  destruct Hx as [Hx|[Hx|[Hx|[]]]]; try discriminate Hx.
  injection Hx as <-. reflexivity.
Defined.

Lemma age_thresholds_witness :
  ∃ a : Z,
    fst (age scenario_invitation scenario_world) = Resolved (Finite a)
    ∧ ((a < 0)%Z ↔ (1234567904500 < 1234567890000)%Z)
    ∧ (a = 0%Z ↔ (1234567890000 ≤ 1234567904500 < 1234567890000 + 1000)%Z)
    ∧ (∀ n : Z, (n ≤ a)%Z ↔ (1000 * n ≤ 1234567904500 - 1234567890000)%Z).
Proof.
  exact (age_thresholds BotWithPuppet memory_puppet scenario_invitation eq_refl
           bot_has_puppet scenario_world scenario_payload scenario_env
           1234567890000%Z eq_refl eq_refl).
Defined.

Lemma fromJSON_text_or_object_witness :
  fromJSON (WechatifiedRoomInvitation BotWithPuppet)
    (inl (stringify_payload early_payload)) scenario_world
  = fromJSON (WechatifiedRoomInvitation BotWithPuppet) (inr early_payload) scenario_world.
Proof.
  exact (fromJSON_text_or_object (Host0 := memory_host)
           (WechatifiedRoomInvitation BotWithPuppet) early_payload scenario_world
           (parse_stringify_payload early_payload)).
Defined.

Lemma fromJSON_then_toJSON_witness :
  ∃ that s1,
    fromJSON (WechatifiedRoomInvitation BotWithPuppet)
      (inl (stringify_payload early_payload)) scenario_world = (Resolved that, s1)
    ∧ id that = "i2"
    ∧ fst (toJSON that s1) = Resolved (stringify_payload early_payload).
Proof.
  exact (fromJSON_then_toJSON (Host0 := memory_host) memory_puppet memory_stored
           BotWithPuppet (stringify_payload early_payload) early_payload scenario_world
           bot_has_puppet eq_refl (parse_stringify_payload early_payload) eq_refl).
Defined.

Lemma reads_leave_payload_witness :
  memory_stored "i1" scenario_payload
    (env (perform_all (WechatifiedRoomInvitation BotWithPuppet)
            [OpTopic scenario_invitation; OpAge scenario_invitation;
             OpToStringAsync scenario_invitation] scenario_world))
  ∧ fst (toJSON scenario_invitation
           (perform_all (WechatifiedRoomInvitation BotWithPuppet)
              [OpTopic scenario_invitation; OpAge scenario_invitation;
               OpToStringAsync scenario_invitation] scenario_world))
    = Resolved (stringify_payload scenario_payload).
Proof.
  apply (reads_leave_payload (Host0 := memory_host) memory_puppet memory_stored
           BotWithPuppet scenario_invitation scenario_payload
           (WechatifiedRoomInvitation BotWithPuppet)
           [OpTopic scenario_invitation; OpAge scenario_invitation;
            OpToStringAsync scenario_invitation] scenario_world eq_refl bot_has_puppet).
  - repeat constructor.
  - reflexivity.
Defined.

(** A host for the smoke test: the variables of the process environment are
    its state; the mock bot may be unable to start or to stop. *)
Definition smoke_host (version : string) (cannot_start cannot_stop : option Exn)
  : SmokeHost (gmap string string) := {|
  process_env variables name := variables !! name;
  bot_start bot variables :=
    (match cannot_start with
     | Some x => if String.eqb (bot_puppet bot) "wechaty-puppet-mock"
                 then Rejected x else Resolved tt
     | None => Resolved tt
     end, variables);
  bot_stop bot variables :=
    (match cannot_stop with
     | Some x => if String.eqb (bot_puppet bot) "wechaty-puppet-mock"
                 then Rejected x else Resolved tt
     | None => Resolved tt
     end, variables);
  bot_version _ variables := (Resolved version, variables);
  bot_listenerCount _ _ variables := (Resolved 0%Z, variables);
  VERSION := version;
|}.

Definition smoke_world : World (Process (gmap string string)) :=
  {| env := {| host_state := {["WECHATY_PUPPET_SERVICE_TOKEN" := "token"]}; output := [] |};
     trace := [] |}.

Definition puppet_unavailable : Exn := ErrorObject PlainError "puppet unavailable".

Lemma other_bots_stop (bot : SmokeBot) (variables : gmap string string) :
  bot ≠ mock_bot →
  fst (bot_stop (SmokeHost := smoke_host "1.0.0" None (Some puppet_unavailable))
         bot variables) = Resolved tt.
Proof.
  intros Hbot. destruct bot as [name]. cbn.
  destruct (String.eqb_spec name "wechaty-puppet-mock") as [->|_]; [|reflexivity].
  destruct Hbot. reflexivity.
Defined.

Lemma other_bots_start (bot : SmokeBot) (variables : gmap string string) :
  bot ≠ mock_bot →
  fst (bot_start (SmokeHost := smoke_host "0.0.0" (Some puppet_unavailable) None)
         bot variables) = Resolved tt.
Proof.
  intros Hbot. destruct bot as [name]. cbn.
  destruct (String.eqb_spec name "wechaty-puppet-mock") as [->|_]; [|reflexivity].
  destruct Hbot. reflexivity.
Defined.

Lemma script_passes_witness :
  fst (script (SmokeHost0 := smoke_host "1.0.0" None None) smoke_world) = 0%Z
  ∧ fst (script (SmokeHost0 := smoke_host "0.0.0" None None) smoke_world) = 1%Z.
Proof.
  split.
  - exact (proj1 (proj2 (script_passes (SmokeHost0 := smoke_host "1.0.0" None None)
                           smoke_world
                           (fun _ _ => eq_refl) (fun _ _ => eq_refl)
                           (fun _ _ => ex_intro _ _ eq_refl)
                           (fun _ _ => ex_intro _ _ eq_refl)))).
  - exact (proj1 (proj2 (script_passes (SmokeHost0 := smoke_host "0.0.0" None None)
                           smoke_world
                           (fun _ _ => eq_refl) (fun _ _ => eq_refl)
                           (fun _ _ => ex_intro _ _ eq_refl)
                           (fun _ _ => ex_intro _ _ eq_refl)))).
Defined.

Lemma start_failure_exits_1_witness :
  fst (main (SmokeHost0 := smoke_host "0.0.0" (Some puppet_unavailable) None) smoke_world)
  = Resolved 1%Z.
Proof.
  exact (proj1 (start_failure_exits_1
                  (SmokeHost0 := smoke_host "0.0.0" (Some puppet_unavailable) None)
                  smoke_world puppet_unavailable
                  (fun _ => eq_refl) other_bots_start (fun _ _ => eq_refl))).
Defined.

Lemma stop_failure_exits_1_witness :
  fst (main (SmokeHost0 := smoke_host "1.0.0" None (Some puppet_unavailable)) smoke_world)
  = Rejected puppet_unavailable
  ∧ fst (script (SmokeHost0 := smoke_host "1.0.0" None (Some puppet_unavailable))
           smoke_world) = 1%Z.
Proof.
  destruct (stop_failure_exits_1
              (SmokeHost0 := smoke_host "1.0.0" None (Some puppet_unavailable))
              smoke_world puppet_unavailable (fun _ => eq_refl) other_bots_stop)
    as (Hmain & Hscript & _).
  split; [exact Hmain|exact Hscript].
Defined.

(** ** The class factory in the in-memory world *)

(** The two bots' [RoomInvitation] classes: those of the first and of the
    second call of [wechatifyRoomInvitation] below. *)
Definition memory_classes (b : Bot) : Closure.ClassRef :=
  match b with
  | BotWithPuppet => Closure.WechatifiedRoomInvitationRef 0
  | BotWithoutPuppet => Closure.WechatifiedRoomInvitationRef 1
  end.

Definition memory_realm : World (Closure.Realm MemoryEnv Bot) :=
  {| env := {| Closure.host_env := scenario_env; Closure.scopes := [] |}; trace := [] |}.

Definition first_handle : Closure.RoomInvitation :=
  {| Closure.class_of := Closure.WechatifiedRoomInvitationRef 0; Closure.id := "i1" |}.

(** A second specialisation, then calls on the first class and its handle,
    and a [load] on the second class. *)
Definition busy_calls : list (Closure.Call Bot) :=
  [ Closure.CallWechatify BotWithoutPuppet;
    Closure.CallLoad (Closure.WechatifiedRoomInvitationRef 0) "i1";
    Closure.CallFromJSON (Closure.WechatifiedRoomInvitationRef 0) (inr early_payload);
    Closure.CallAccept first_handle;
    Closure.CallTopic first_handle;
    Closure.CallMemberList first_handle;
    Closure.CallAge first_handle;
    Closure.CallToJSON first_handle;
    Closure.CallLoad (Closure.WechatifiedRoomInvitationRef 1) "i2" ].

Lemma binding_never_reassigned_witness :
  let s0 := snd (Closure.wechatifyRoomInvitation BotWithPuppet memory_realm) in
  let s1 := Closure.perform_all memory_classes busy_calls s0 in
  fst (Closure.wechatifyRoomInvitation BotWithPuppet memory_realm)
    = Resolved (Closure.WechatifiedRoomInvitationRef 0)
  ∧ Closure.static_wechaty (Closure.WechatifiedRoomInvitationRef 0) s0
    = (Resolved BotWithPuppet, s0)
  ∧ Closure.static_wechaty (Closure.WechatifiedRoomInvitationRef 0) s1
    = (Resolved BotWithPuppet, s1)
  ∧ Closure.get_wechaty first_handle s1 = (Resolved BotWithPuppet, s1)
  ∧ Closure.scopes (env s1) = [BotWithPuppet; BotWithoutPuppet]
  ∧ accepted (Closure.host_env (env s1)) = ["i1"].
Proof.
  cbn zeta.
  destruct (binding_never_reassigned memory_classes BotWithPuppet busy_calls memory_realm)
    as (C & s0 & Hmade & Hstatic0 & Hstatic1 & Hget & _).
  injection Hmade as <- <-.
  split; [reflexivity|]. split; [exact Hstatic0|]. split; [exact Hstatic1|].
  split; [exact (proj2 (Hget first_handle eq_refl))|].
  split; vm_compute; reflexivity.
Defined.
